(** * fastcounter: memcache-backed counters with throttled persistence

    A shallow embedding of [fastcounter.py] (Google App Engine, Python 2).
    The three services the module talks to -- memcache, the datastore and
    the task queue -- are state components of a [world]; every call of the
    module that can fail or that depends on chance takes its outcome from
    an explicit environment record [env], so that each run of [incr] is a
    function of the starting world and of what the services answered. *)

From stdpp Require Import gmap strings list fin_maps pretty.
From Stdlib Require Import ZArith Lia.

Open Scope Z_scope.

(** ** Python values and exceptions *)

(** What a memcache entry of this module holds: the throttle flag stores
    [None], a counter slot stores an integer.  [PyNone] is also what a
    memcache call answers on a miss or on a failed call. *)
Inductive pyval : Type :=
  | PyNone
  | PyInt (n : Z).

Inductive exn : Type :=
  | TypeError
  | IndexError
  | TaskQueueError
  | BadValueError.

Inductive res (A : Type) : Type :=
  | Ok (a : A)
  | Raise (e : exn).
Arguments Ok {A} a.
Arguments Raise {A} e.

#[global] Instance res_ret : MRet res := λ A a, Ok a.
#[global] Instance res_bind : MBind res := λ A B f m,
  match m with
  | Ok a => f a
  | Raise e => Raise e
  end.

#[global] Instance pyval_eq_dec : EqDecision pyval.
Proof. solve_decision. Defined.

(** [int(v)]: the identity on integers, [TypeError] on [None]. *)
Definition int (v : pyval) : res Z :=
  match v with
  | PyInt n => Ok n
  | PyNone => Raise TypeError
  end.

(** [x or d] for [x] an integer or [None] and [d] an integer: Python
    takes [d] when [x] is falsy, and both [None] and [0] are falsy. *)
Definition py_or (x : pyval) (d : Z) : Z :=
  match x with
  | PyInt n => if decide (n = 0) then d else n
  | PyNone => d
  end.

(** [c and c.value] for [c] an entity or [None] (an entity is truthy). *)
Definition py_and {A : Type} (c : option A) (f : A → Z) : pyval :=
  match c with
  | Some a => PyInt (f a)
  | None => PyNone
  end.

(** ** The world *)

(** [db.IntegerProperty]: a signed 64-bit integer.  Giving the property
    a value, in the constructor of the entity or by assignment, validates
    it and raises [BadValueError] outside of that range. *)
Definition INT64_MIN : Z := - 2 ^ 63.
Definition INT64_MAX : Z := 2 ^ 63 - 1.

Definition fits_int64 (v : Z) : Prop := INT64_MIN <= v <= INT64_MAX.

#[global] Instance fits_int64_dec (v : Z) : Decision (fits_int64 v).
Proof. unfold fits_int64. apply _. Defined.

(** [class Counter(db.Model)]: the entity's key name is the counter's
    name, its only property is [value], an [IntegerProperty]: an entity
    only ever holds a value that passed the validation. *)
Record Counter : Type := mkCounter {
  value : Z;
  value_fits : bool_decide (fits_int64 value)
}.

(** [Counter(key_name=name, value=v)]: the constructor validates [v]. *)
Definition new_Counter (v : Z) : res Counter :=
  match decide (Is_true (bool_decide (fits_int64 v))) with
  | left H => Ok (mkCounter v H)
  | right _ => Raise BadValueError
  end.

(** [c.value = v]: the assignment validates [v]; the entity is still the
    one of the same key. *)
Definition set_value (c : Counter) (v : Z) : res Counter := new_Counter v.

(** A task as [taskqueue.add] receives it.  The form field [delta]
    travels as the decimal text of the integer and the handler reads it
    back with [int]; the record keeps the integer. *)
Record task : Type := mkTask {
  url : string;
  queue_name : string;
  param_name : string;
  param_delta : Z
}.

Record world : Type := mkWorld {
  cache : gmap string pyval;       (* memcache, one key space *)
  store : gmap string Counter;     (* datastore, kind Counter, by key name *)
  queue : list task;               (* tasks submitted and not yet run *)
  log : list (string * Z)          (* logging.warn: (name, delta) *)
}.

Definition set_cache (mc : gmap string pyval) (w : world) : world :=
  mkWorld mc (store w) (queue w) (log w).
Definition set_store (ds : gmap string Counter) (w : world) : world :=
  mkWorld (cache w) ds (queue w) (log w).
Definition set_queue (q : list task) (w : world) : world :=
  mkWorld (cache w) (store w) q (log w).
Definition set_log (l : list (string * Z)) (w : world) : world :=
  mkWorld (cache w) (store w) (queue w) l.

(** What the services answer during one call of [incr]. *)
Record env : Type := mkEnv {
  update_rpc : bool;   (* the first memcache.incr/decr reaches memcache *)
  add_rpc : bool;      (* memcache.add reaches memcache *)
  random : Z;          (* the random source behind random.randint *)
  enqueue_ok : bool;   (* the task queue accepts the task *)
  others : gmap string pyval → gmap string pyval;
                       (* what other requests and eviction do to memcache
                          between the enqueue and the correction *)
  reset_rpc : bool     (* the correcting memcache.decr/incr reaches memcache *)
}.

(** Statements of the module run in a state-and-exception monad: a raised
    exception keeps the effects made before it. *)
Definition M (A : Type) : Type := world → res A * world.

#[global] Instance M_ret : MRet M := λ A a w, (Ok a, w).
#[global] Instance M_bind : MBind M := λ A B f m w,
  match m w with
  | (Ok a, w') => f a w'
  | (Raise e, w') => (Raise e, w')
  end.

(** [try: m except: h] with a bare [except]. *)
Definition try_except {A : Type} (m h : M A) : M A := λ w,
  match m w with
  | (Ok a, w') => (Ok a, w')
  | (Raise _, w') => h w'
  end.

Definition lift_res {A : Type} (r : res A) : M A := λ w, (r, w).

Definition on_cache {A : Type}
    (f : gmap string pyval → A * gmap string pyval) : M A := λ w,
  let '(a, mc) := f (cache w) in (Ok a, set_cache mc w).

(** ** memcache

    The App Engine memcache client as its documentation describes the
    calls this module makes: values of counters are unsigned 64-bit
    integers, [incr] wraps around, [decr] stops at zero, and a call that
    cannot be served answers [None] ([False] for [add]) instead of
    raising.  The flag [ok] of a call says whether it reaches the
    service.

    What the client refuses before it calls the service is outside these
    definitions: [incr] and [decr] raise [ValueError] for a [delta] that
    is negative or not below 2^64, [add] raises [ValueError] for a
    negative [time].  [incr] of this module calls them with the
    magnitude of its [delta] and with its [update_interval]; the
    properties that depend on the call being accepted say so with
    [accepted_args].  The integers [incr] and [decr] leave in a slot are
    unsigned 64-bit values ([cache_in_range]); on an integer outside of
    that range, which only another writer can have stored, the
    definitions keep the same arithmetic. *)

Module memcache.

(** Values are 64-bit unsigned. *)
Definition UINT64 : Z := 2 ^ 64.

(** [memcache.get(key)]: the value, [None] on a miss. *)
Definition get (mc : gmap string pyval) (key : string) : pyval :=
  default PyNone (mc !! key).

(** [memcache.get_multi(keys, key_prefix)]: a dict from the keys that
    were found (without the prefix) to their values. *)
Fixpoint get_multi (mc : gmap string pyval) (keys : list string)
    (key_prefix : string) : gmap string pyval :=
  match keys with
  | [] => ∅
  | k :: ks =>
      match mc !! (key_prefix +:+ k) with
      | Some v => <[k := v]> (get_multi mc ks key_prefix)
      | None => get_multi mc ks key_prefix
      end
  end.

(** [memcache.add(key, value, time)]: sets the key only if it is not
    there; [True] iff it was set.  The expiry [time] is the business of
    the cache: an expired flag is an absent key of the world. *)
Definition add (ok : bool) (key : string) (v : pyval) (time : Z)
    (mc : gmap string pyval) : bool * gmap string pyval :=
  if ok then
    match mc !! key with
    | None => (true, <[key := v]> mc)
    | Some _ => (false, mc)
    end
  else (false, mc).

(** [memcache.incr(key, delta, initial_value)]: adds [delta] modulo
    2^64; an absent key starts from [initial_value] when one is given;
    [None] when the key is absent without initial value, when the entry
    is not an integer, or when the call fails. *)
Definition incr (ok : bool) (key : string) (delta : Z)
    (initial_value : option Z) (mc : gmap string pyval)
    : pyval * gmap string pyval :=
  if ok then
    match mc !! key, initial_value with
    | Some (PyInt n), _ | None, Some n =>
        let n' := (n + delta) `mod` UINT64 in
        (PyInt n', <[key := PyInt n']> mc)
    | Some PyNone, _ | None, None => (PyNone, mc)
    end
  else (PyNone, mc).

(** [memcache.decr(key, delta, initial_value)]: subtracts [delta] and
    stops at zero ("it does not underflow"). *)
Definition decr (ok : bool) (key : string) (delta : Z)
    (initial_value : option Z) (mc : gmap string pyval)
    : pyval * gmap string pyval :=
  if ok then
    match mc !! key, initial_value with
    | Some (PyInt n), _ | None, Some n =>
        let n' := Z.max 0 (n - delta) in
        (PyInt n', <[key := PyInt n']> mc)
    | Some PyNone, _ | None, None => (PyNone, mc)
    end
  else (PyNone, mc).

End memcache.

(** ** datastore, task queue, logging, random *)

Module db.

(** [Counter.get_by_key_name(name)], for [name] a key name (a key name
    is not empty; the datastore refuses the empty string). *)
Definition get_by_key_name (ds : gmap string Counter) (name : string)
    : option Counter := ds !! name.

(** [db.Key.from_path('Counter', name)]: within the kind, the key is
    the key name (not empty, as for [get_by_key_name]). *)
Definition Key_from_path (kind name : string) : string := name.

(** [db.get(keys)]: one entity or [None] per key, in the order of the keys. *)
Definition get (ds : gmap string Counter) (keys : list string)
    : list (option Counter) := (λ k, ds !! k) <$> keys.

(** [c.put()] for the entity of key name [name]. *)
Definition put (name : string) (c : Counter) (ds : gmap string Counter)
    : gmap string Counter := <[name := c]> ds.

(** [db.run_in_transaction(f, ...)]: [f] reads and writes one snapshot
    of the datastore.  When [f] returns, its writes are committed
    together; when [f] raises, the transaction is rolled back, nothing
    is written and the exception goes on to the caller.  A commit that
    the datastore itself cannot make (contention, timeout) is for the
    task queue to retry and is not part of these definitions. *)
Definition run_in_transaction
    (f : gmap string Counter → res (gmap string Counter)) : M () := λ w,
  match f (store w) with
  | Ok ds => (Ok (), set_store ds w)
  | Raise x => (Raise x, w)
  end.

End db.

Module taskqueue.

(** [taskqueue.add(...)]: appends the task, or raises. *)
Definition add (ok : bool) (t : task) : M () := λ w,
  if ok then (Ok (), set_queue (queue w ++ [t]) w)
  else (Raise TaskQueueError, w).

End taskqueue.

Module logging.

Definition warn (name : string) (delta : Z) : M () := λ w,
  (Ok (), set_log (log w ++ [(name, delta)]) w).

End logging.

(** [random.randint(lo, hi)] from the random source [r]. *)
Definition randint (r lo hi : Z) : Z := lo + r `mod` (hi - lo + 1).

(** ** fastcounter.py *)

Definition BASE_VALUE : Z := 2 ^ 63.

(** [int(memcache.get(...) or BASE_VALUE)]: [py_or] already yields the
    integer, on which [int] is the identity.  An entity is truthy, so
    [if c] tests for [None]. *)
Definition get_count (w : world) (name : string) : Z :=
  let c := db.get_by_key_name (store w) name in
  let fmc := py_or (memcache.get (cache w) ("ctr_val:" +:+ name)) BASE_VALUE
             - BASE_VALUE in
  match c with
  | Some c => value c + fmc
  | None => fmc
  end.

(** [enumerate(names)] *)
Definition enumerate {A : Type} (l : list A) : list (nat * A) :=
  imap (λ i x, (i, x)) l.

(** The body of the [for] loop of [get_counts], over what is left of
    [enumerate(names)], with [ret] the list built so far. *)
Fixpoint get_counts_loop (db_counts : list (option Counter))
    (mc_counts : gmap string pyval) (items : list (nat * string))
    (ret : list Z) : res (list Z) :=
  match items with
  | [] => Ok ret
  | (i, name) :: rest =>
      match db_counts !! i with
      | None => Raise IndexError
      | Some c =>
          let db_count := py_or (py_and c value) 0 in
          n ← int (default (PyInt BASE_VALUE) (mc_counts !! name));
          let mc_count := n - BASE_VALUE in
          get_counts_loop db_counts mc_counts rest
            (ret ++ [db_count + mc_count])
      end
  end.

Definition get_counts (w : world) (names : list string) : res (list Z) :=
  let db_keys := db.Key_from_path "Counter" <$> names in
  let db_counts := db.get (store w) db_keys in
  let mc_counts := memcache.get_multi (cache w) names "ctr_val:" in
  get_counts_loop db_counts mc_counts (enumerate names) [].

(** The block under [# update memcache]; for an integer [delta] the
    [elif delta < 0] is the [else] of [if delta >= 0]. *)
Definition update_memcache (e : env) (delta_key : string) (delta : Z)
    : M pyval :=
  if decide (delta >= 0) then
    on_cache (memcache.incr (update_rpc e) delta_key delta (Some BASE_VALUE))
  else
    on_cache (memcache.decr (update_rpc e) delta_key (- delta) (Some BASE_VALUE)).

(** [incr(name, delta=1, update_interval=10)], statement by statement.
    Each [return] of the source ends a branch with [mret ()].  The one
    step that is no statement of the source is [others e]: it is where
    other requests and eviction act on memcache between the enqueue and
    the correction, which the source reaches with two separate calls. *)
Definition incr (e : env) (name : string) (delta : Z) (update_interval : Z)
    : M () :=
  let lock_key := "ctr_lck:" +:+ name in
  let delta_key := "ctr_val:" +:+ name in
  v ← update_memcache e delta_key delta;
  won ← on_cache (memcache.add (add_rpc e) lock_key PyNone update_interval);
  if (won : bool) then
    v ← lift_res (int v);
    let delta_to_persist := v - BASE_VALUE in
    if decide (delta_to_persist = 0) then mret ()
    else
      queued ← try_except
        (let qn := randint (random e) 0 4 in
         let qname := "PersistCounter" +:+ pretty qn in
         taskqueue.add (enqueue_ok e)
           (mkTask "/task/counter_persist_incr" qname name delta_to_persist);;
         mret true)
        (mret false);
      if (queued : bool) then
        on_cache (λ mc, ((), others e mc));;
        failed ←
          (if decide (delta_to_persist > 0) then
             r ← on_cache (memcache.decr (reset_rpc e) delta_key
                             delta_to_persist None);
             mret (bool_decide (r = PyNone))
           else if decide (delta_to_persist < 0) then
             r ← on_cache (memcache.incr (reset_rpc e) delta_key
                             (- delta_to_persist) None);
             mret (bool_decide (r = PyNone))
           else mret false);
        if (failed : bool) then logging.warn name delta_to_persist
        else mret ()
      else mret ()
  else mret ().

(** [CounterPersistIncr.incr_counter], the body of the transaction: the
    snapshot it is given, and the snapshot it leaves or the exception it
    raises.  Both the constructor and [c.value += delta] validate the
    new value, before [c.put()]. *)
Definition incr_counter (name : string) (delta : Z)
    (ds : gmap string Counter) : res (gmap string Counter) :=
  match db.get_by_key_name ds name with
  | None =>
      c ← new_Counter delta;
      Ok (db.put name c ds)
  | Some c =>
      c ← set_value c (value c + delta);
      Ok (db.put name c ds)
  end.

(** [CounterPersistIncr.post], on the task's parameters. *)
Definition post (t : task) : M () :=
  let name := param_name t in
  let delta := param_delta t in
  db.run_in_transaction (incr_counter name delta).

(** The durable value of a counter as the read path sees it: 0 for an
    absent record. *)
Definition durable (w : world) (name : string) : Z :=
  match store w !! name with
  | Some c => value c
  | None => 0
  end.

(** A run in which every service answers, with nobody else touching
    memcache in between. *)
Definition calm (r : Z) : env := mkEnv true true r true id true.

Definition empty_world : world := mkWorld ∅ ∅ [] [].

(** ** Runs, and the read path as the specification words it *)

(** The world a statement leaves, and how it ends. *)
Definition run {A : Type} (m : M A) (w : world) : world := (m w).2.
Definition outcome {A : Type} (m : M A) (w : world) : res A := (m w).1.

(** The task [incr] submits when it flushes [D] for [name]. *)
Definition persist_task (e : env) (name : string) (D : Z) : task :=
  mkTask "/task/counter_persist_incr"
    ("PersistCounter" +:+ pretty (randint (random e) 0 4)) name D.

(** The merge formula in the words of the specification: the durable value
    plus the slot's raw value when the slot is present, [BASE_VALUE]
    otherwise, minus [BASE_VALUE]. *)
Definition merge_as_specified (w : world) (name : string) : Z :=
  durable w name
  + match cache w !! ("ctr_val:" +:+ name) with
    | Some (PyInt n) => n
    | _ => BASE_VALUE
    end
  - BASE_VALUE.

(** Memcache integers are 64-bit unsigned: the slot of [name], when it is
    an integer, is in range. *)
Definition slot_in_range (w : world) (name : string) : Prop :=
  ∀ n, cache w !! ("ctr_val:" +:+ name) = Some (PyInt n) →
       0 <= n < memcache.UINT64.

(** Nobody else touches the slot or the flag of [name] while [e] runs. *)
Definition undisturbed (e : env) (name : string) : Prop :=
  ∀ mc, others e mc !! ("ctr_val:" +:+ name) = mc !! ("ctr_val:" +:+ name)
      ∧ others e mc !! ("ctr_lck:" +:+ name) = mc !! ("ctr_lck:" +:+ name).

(** The two-increment scenario in the words of the specification: from a
    world with no flag, no slot and no record for x, after incr("x", 5)
    and incr("x", 3) and before any job has run, the count of x is 8 and
    x has no durable record. *)
Definition scenario_as_specified (e1 e2 : env) (w : world) : Prop :=
  cache w !! "ctr_lck:x" = None →
  cache w !! "ctr_val:x" = None →
  store w !! "x" = None →
  get_count (run (incr e1 "x" 5 10 ;; incr e2 "x" 3 10) w) "x" = 8
  ∧ store (run (incr e1 "x" 5 10 ;; incr e2 "x" 3 10) w) !! "x" = None.

(** A zero increment in the words of the specification: the count read
    after it is the count read before it. *)
Definition zero_incr_as_specified (e : env) (w : world) (name : string)
    : Prop :=
  get_count (run (incr e name 0 10) w) name = get_count w name.

(** The job in the words of the specification: after it the record of
    the name holds [delta] when there was none, and its value plus
    [delta] otherwise. *)
Definition job_as_specified (t : task) (w : world) : Prop :=
  value <$> store (run (post t) w) !! param_name t
  = Some match store w !! param_name t with
         | None => param_delta t
         | Some c => value c + param_delta t
         end.

(** A job delivered twice in the words of the specification: the durable
    value has moved by twice the delta. *)
Definition redelivery_as_specified (t : task) (w : world) : Prop :=
  durable (run (post t) (run (post t) w)) (param_name t)
  = durable w (param_name t) + 2 * param_delta t.

(** The arguments of [incr] that the memcache client accepts: the
    magnitude of [delta] is below 2^64, and the interval is positive, as
    the docstring of [incr] asks. *)
Definition accepted_args (delta update_interval : Z) : Prop :=
  - memcache.UINT64 < delta < memcache.UINT64 ∧ 0 < update_interval.

(** ** Worlds and environments of the examples *)

(** The slot of x holds the raw value 0, nothing else exists. *)
Definition zero_slot_world : world :=
  mkWorld {[ "ctr_val:x" := PyInt 0 ]} ∅ [] [].

(** Five increments wait in the slot of x and the throttle flag is gone. *)
Definition pending_world : world :=
  mkWorld {[ "ctr_val:x" := PyInt (BASE_VALUE + 5) ]} ∅ [] [].

(** The throttle flag of x is there and nothing else. *)
Definition held_flag_world : world :=
  mkWorld {[ "ctr_lck:x" := PyNone ]} ∅ [] [].

(** Same slot, with the throttle flag still there. *)
Definition throttled_world : world :=
  mkWorld (<[ "ctr_lck:x" := PyNone ]> {[ "ctr_val:x" := PyInt (BASE_VALUE + 5) ]})
    ∅ [] [].

(** The first memcache call gets no answer, the second one does. *)
Definition flaky_update : env := mkEnv false true 0 true id true.

(** The task queue refuses the task. *)
Definition queue_down : env := mkEnv true true 0 false id true.

(** The slot is evicted between the enqueue and the correction. *)
Definition evicting (name : string) : env :=
  mkEnv true true 0 true (delete ("ctr_val:" +:+ name)) true.

(** ** Accounting *)

(** What the queued jobs of [name] carry, all together. *)
Fixpoint pending (q : list task) (name : string) : Z :=
  match q with
  | [] => 0
  | t :: q' =>
      (if decide (param_name t = name) then param_delta t else 0)
      + pending q' name
  end.

(** What a counter is worth once every queued job has run: the count that
    [get_count] reads plus what the queue still carries for the name. *)
Definition total (w : world) (name : string) : Z :=
  get_count w name + pending (queue w) name.

(** Every integer of memcache is an unsigned 64-bit value. *)
Definition cache_in_range (mc : gmap string pyval) : Prop :=
  ∀ k n, mc !! k = Some (PyInt n) → 0 <= n < memcache.UINT64.

(** The five queues the jobs are spread over. *)
Definition persist_queues : list string :=
  ["PersistCounter0"; "PersistCounter1"; "PersistCounter2";
   "PersistCounter3"; "PersistCounter4"].

(** The slot of x holds four decrements, y has a durable record. *)
Definition mixed_world : world :=
  mkWorld {[ "ctr_val:x" := PyInt (BASE_VALUE - 4) ]}
    {[ "y" := mkCounter 7 I ]} [] [].

(** The durable record of x holds the largest value it can. *)
Definition full_world : world :=
  mkWorld ∅ {[ "x" := mkCounter INT64_MAX I ]} [] [].

(** A job for x carrying [D]. *)
Definition job_for_x (D : Z) : task :=
  mkTask "/task/counter_persist_incr" "PersistCounter0" "x" D.


(** One call of [incr] per delta of the list, one after the other, each
    on the world the one before left. *)
Definition incr_each (e : env) (name : string) (ui : Z) (deltas : list Z)
    (w : world) : world :=
  foldl (λ w' d, run (incr e name d ui) w') w deltas.

(** The sum of a list of deltas, and the sum of their magnitudes. *)
Definition sum_deltas (deltas : list Z) : Z := foldr Z.add 0 deltas.
Definition sum_magnitudes (deltas : list Z) : Z :=
  foldr (λ d s, Z.abs d + s) 0 deltas.

(** Memcache answers nothing at all. *)
Definition memcache_down : env := mkEnv false false 0 true id true.

(** * Properties *)

(** ** Basic facts *)

Lemma seq_ok {A : Type} (m1 : M ()) (m2 : M A) (w w1 : world) :
  m1 w = (Ok (), w1) → (m1 ;; m2) w = m2 w1.
Proof. intros H. unfold mbind, M_bind. by rewrite H. Qed.

Lemma BASE_VALUE_eq : BASE_VALUE = 9223372036854775808.
Proof. reflexivity. Qed.

Lemma UINT64_eq : memcache.UINT64 = 18446744073709551616.
Proof. reflexivity. Qed.

(** The slot and the flag of a counter never share a memcache key. *)
Lemma val_key_not_lock_key (n m : string) :
  "ctr_val:" +:+ n ≠ "ctr_lck:" +:+ m.
Proof. simpl. discriminate. Qed.

Lemma durable_lookup (w : world) (name : string) :
  durable w name = py_or (py_and (store w !! name) value) 0.
Proof.
  unfold durable, py_and, py_or.
  destruct (store w !! name) as [c|]; [|done].
  case_decide; lia.
Qed.

(** [get_count] is the durable value plus the offset that [py_or] reads
    off the slot. *)
Lemma get_count_merge (w : world) (name : string) :
  get_count w name =
  durable w name
  + py_or (memcache.get (cache w) ("ctr_val:" +:+ name)) BASE_VALUE
  - BASE_VALUE.
Proof.
  unfold get_count, durable, db.get_by_key_name.
  destruct (store w !! name); lia.
Qed.

(** Off the raw value 0 the code and the specified formula agree. *)
Lemma get_count_merge_nonzero (w : world) (name : string) :
  cache w !! ("ctr_val:" +:+ name) ≠ Some (PyInt 0) →
  get_count w name = merge_as_specified w name.
Proof.
  intros Hnz. rewrite get_count_merge. unfold merge_as_specified, memcache.get.
  destruct (cache w !! _) as [[|n]|]; simpl; try done.
  case_decide; [subst; done | done].
Qed.

(** The read path looks at memcache and the datastore only: tasks that
    were submitted and have not run, and the log, do not count. *)
Lemma get_count_ignores_queue (w : world) (q : list task)
    (l : list (string * Z)) (name : string) :
  get_count (set_log l (set_queue q w)) name = get_count w name.
Proof. reflexivity. Qed.

(** ** The read path *)

(** C1, evaluated where the code leaves the claimed formula: with the raw
    value 0 in the slot of x and no durable record, the claim (durable
    value plus the raw value of a present slot minus [BASE_VALUE]) gives
    -2^63, and [get_count] returns 0. *)
Theorem get_count_zero_slot_off_formula :
  cache zero_slot_world !! "ctr_val:x" = Some (PyInt 0)
  ∧ merge_as_specified zero_slot_world "x" = - 2 ^ 63
  ∧ get_count zero_slot_world "x" = 0
  ∧ get_count zero_slot_world "x" ≠ merge_as_specified zero_slot_world "x".
Proof. repeat split; vm_compute; congruence. Qed.

(** The raw value 0 is a state the module produces itself: a decrement
    by 2^63 while the flag is held leaves it in the slot, and the two
    read paths then answer differently. *)
Example zero_slot_reached :
  cache (run (incr (calm 0) "x" (- 2 ^ 63) 10) held_flag_world) !! "ctr_val:x"
  = Some (PyInt 0)
  ∧ get_count (run (incr (calm 0) "x" (- 2 ^ 63) 10) held_flag_world) "x" = 0
  ∧ get_counts (run (incr (calm 0) "x" (- 2 ^ 63) 10) held_flag_world) ["x"]
    = Ok [- 2 ^ 63].
Proof. repeat split; vm_compute; reflexivity. Qed.

(** C10: a slot that holds the raw value 0 is read like an absent slot:
    [get_count] returns the durable value alone (0 without a record), the
    same as in the world where the slot has been deleted. *)
Theorem get_count_zero_slot_like_absent (w : world) (name : string) :
  cache w !! ("ctr_val:" +:+ name) = Some (PyInt 0) →
  get_count w name = durable w name
  ∧ get_count w name
    = get_count (set_cache (delete ("ctr_val:" +:+ name) (cache w)) w) name.
Proof.
  intros Hz. rewrite !get_count_merge.
  unfold memcache.get. cbn [cache set_cache].
  rewrite Hz, lookup_delete_eq.
  change (py_or (default PyNone (Some (PyInt 0))) BASE_VALUE) with BASE_VALUE.
  change (py_or (default PyNone None) BASE_VALUE) with BASE_VALUE.
  split; [lia | reflexivity].
Qed.

Lemma get_count_zero_slot_like_absent_witness :
  get_count zero_slot_world "x" = durable zero_slot_world "x"
  ∧ get_count zero_slot_world "x"
    = get_count (set_cache (delete "ctr_val:x" (cache zero_slot_world))
                   zero_slot_world) "x".
Proof.
  apply (get_count_zero_slot_like_absent zero_slot_world "x").
  reflexivity.
Defined.

(** What [get_multi] holds for a name: the slot, if the name was asked. *)
Lemma get_multi_lookup (mc : gmap string pyval) (keys : list string)
    (key_prefix k : string) :
  memcache.get_multi mc keys key_prefix !! k =
  if decide (k ∈ keys) then mc !! (key_prefix +:+ k) else None.
Proof.
  induction keys as [|k' ks IH]; cbn [memcache.get_multi].
  - rewrite lookup_empty. case_decide as H; [by apply elem_of_nil in H | done].
  - assert (∀ o : option pyval,
      (if decide (k ∈ ks) then mc !! (key_prefix +:+ k) else None) = o →
      k ≠ k' →
      (if decide (k ∈ k' :: ks) then mc !! (key_prefix +:+ k) else None) = o)
      as Hfurther.
    { intros o <- Hne. destruct (decide (k ∈ ks)) as [Hin|Hnin].
      - rewrite decide_True; [done | apply elem_of_cons; by right].
      - rewrite decide_False; [done|]. rewrite elem_of_cons. by intros [?|?]. }
    destruct (decide (k = k')) as [->|Hne].
    + rewrite decide_True by (apply elem_of_cons; by left).
      destruct (mc !! (key_prefix +:+ k')) as [v|] eqn:E.
      * by rewrite lookup_insert_eq.
      * rewrite IH. by case_decide.
    + destruct (mc !! (key_prefix +:+ k')) as [v|] eqn:E.
      * rewrite lookup_insert_ne by done. symmetry. by apply Hfurther.
      * symmetry. by apply Hfurther.
Qed.

Lemma enumerate_lookup {A : Type} (l : list A) (i : nat) :
  enumerate l !! i = (λ x, (i, x)) <$> l !! i.
Proof. unfold enumerate. apply list_lookup_imap. Qed.

Lemma enumerate_snd {A : Type} (l : list A) : snd <$> enumerate l = l.
Proof.
  apply list_eq. intros i.
  rewrite list_lookup_fmap, enumerate_lookup.
  by destruct (l !! i).
Qed.

(** The loop of [get_counts] returns one merged count per item as long as
    every item finds its datastore answer and an integer in the dict. *)
Lemma get_counts_loop_ok (w : world) (db_counts : list (option Counter))
    (mc_counts : gmap string pyval) (items : list (nat * string))
    (ret : list Z) :
  Forall (λ it, db_counts !! it.1 = Some (store w !! it.2)
                ∧ default (PyInt BASE_VALUE) (mc_counts !! it.2)
                  = PyInt (py_or (memcache.get (cache w)
                                    ("ctr_val:" +:+ it.2)) BASE_VALUE))
         items →
  get_counts_loop db_counts mc_counts items ret
  = Ok (ret ++ (get_count w <$> (snd <$> items))).
Proof.
  revert ret. induction items as [|[i name] rest IH]; intros ret Hall.
  - simpl. by rewrite app_nil_r.
  - apply Forall_cons in Hall as [[Hdb Hmc] Hrest]. simpl in Hdb, Hmc.
    simpl. rewrite Hdb, Hmc. simpl.
    rewrite (IH _ Hrest). f_equal.
    rewrite <- app_assoc. simpl. do 2 f_equal.
    rewrite get_count_merge, durable_lookup. lia.
Qed.

(** On names whose slots are absent or hold a non-zero integer the batch
    read is the single read, name by name and in the order of the input. *)
Lemma get_counts_off_zero (w : world) (names : list string) :
  (∀ name, name ∈ names →
           cache w !! ("ctr_val:" +:+ name) = None
           ∨ ∃ n, n ≠ 0 ∧ cache w !! ("ctr_val:" +:+ name) = Some (PyInt n)) →
  get_counts w names = Ok (get_count w <$> names).
Proof.
  intros Hslots. unfold get_counts.
  rewrite (get_counts_loop_ok w); [by rewrite enumerate_snd|].
  apply Forall_lookup. intros i [j name] Hi.
  rewrite enumerate_lookup in Hi.
  destruct (names !! i) as [name'|] eqn:Hn; simplify_eq/=.
  split.
  - unfold db.get, db.Key_from_path.
    by rewrite !list_lookup_fmap, Hn.
  - assert (name ∈ names) as Hin by (apply list_elem_of_lookup; eauto).
    rewrite get_multi_lookup, decide_True by done.
    unfold memcache.get.
    destruct (Hslots name Hin) as [->|(n & Hn0 & ->)]; simpl; [done|].
    by rewrite decide_False.
Qed.

(** C5, evaluated where the two read paths part: with the raw value 0 in
    the slot of x, [get_count] returns 0 for x and [get_counts] returns
    -2^63 for it, so the batch is not the list of single reads. *)
Theorem get_counts_zero_slot_disagrees :
  get_count zero_slot_world "x" = 0
  ∧ get_counts zero_slot_world ["x"] = Ok [- 2 ^ 63]
  ∧ get_counts zero_slot_world ["x"]
    ≠ Ok (get_count zero_slot_world <$> ["x"]).
Proof. repeat split; vm_compute; congruence. Qed.

(** ** The persistence job *)

(** A durable value is a signed 64-bit integer. *)
Lemma durable_fits (w : world) (name : string) :
  fits_int64 (durable w name).
Proof.
  unfold durable. destruct (store w !! name) as [c|].
  - apply (bool_decide_unpack _ (value_fits c)).
  - by vm_compute.
Qed.

(** Two entities with the same value are the same entity. *)
Lemma Counter_eq (c1 c2 : Counter) : value c1 = value c2 → c1 = c2.
Proof.
  destruct c1 as [v1 H1], c2 as [v2 H2]. cbn. intros ->.
  f_equal. apply proof_irrel.
Qed.

Lemma new_Counter_fits (v : Z) :
  fits_int64 v → ∃ c, new_Counter v = Ok c ∧ value c = v.
Proof.
  intros Hv. unfold new_Counter.
  destruct (decide (Is_true (bool_decide (fits_int64 v)))) as [H|H].
  - by eexists.
  - destruct H. by apply bool_decide_pack.
Qed.

Lemma new_Counter_overflow (v : Z) :
  ¬ fits_int64 v → new_Counter v = Raise BadValueError.
Proof.
  intros Hv. unfold new_Counter.
  destruct (decide (Is_true (bool_decide (fits_int64 v)))) as [H|H]; [|done].
  destruct Hv. by apply bool_decide_unpack in H.
Qed.

(** The value the job is about to store: [delta] without a record, the
    value plus [delta] with one; in both cases the durable value, as the
    read path sees it, plus [delta]. *)
Lemma incr_counter_eq (name : string) (delta : Z) (ds : gmap string Counter) :
  incr_counter name delta ds
  = c ← new_Counter (match ds !! name with
                     | None => delta
                     | Some c => value c + delta
                     end);
    Ok (<[name := c]> ds).
Proof.
  unfold incr_counter, db.get_by_key_name, db.put, set_value.
  by destruct (ds !! name).
Qed.

Lemma durable_plus (w : world) (name : string) (delta : Z) :
  match store w !! name with
  | None => delta
  | Some c => value c + delta
  end = durable w name + delta.
Proof. unfold durable. by destruct (store w !! name). Qed.

(** The job on a value that fits: it returns normally and the one record
    is written. *)
Lemma post_fits (t : task) (w : world) :
  fits_int64 (durable w (param_name t) + param_delta t) →
  ∃ c, value c = durable w (param_name t) + param_delta t
       ∧ post t w = (Ok (), set_store (<[param_name t := c]> (store w)) w).
Proof.
  intros Hfits. unfold post, db.run_in_transaction.
  rewrite incr_counter_eq, durable_plus.
  destruct (new_Counter_fits _ Hfits) as (c & -> & Hc).
  exists c. by split.
Qed.

(** The job on a value that does not fit: [BadValueError], and the world
    is what it was. *)
Lemma post_overflow (t : task) (w : world) :
  ¬ fits_int64 (durable w (param_name t) + param_delta t) →
  post t w = (Raise BadValueError, w).
Proof.
  intros Hfits. unfold post, db.run_in_transaction.
  rewrite incr_counter_eq, durable_plus.
  by rewrite (new_Counter_overflow _ Hfits).
Qed.

(** One run of the job that fits adds its delta to the durable value. *)
Lemma post_durable (t : task) (w : world) :
  fits_int64 (durable w (param_name t) + param_delta t) →
  durable (run (post t) w) (param_name t)
  = durable w (param_name t) + param_delta t.
Proof.
  intros Hfits. destruct (post_fits t w Hfits) as (c & Hc & Hpost).
  unfold run. rewrite Hpost. unfold durable at 1.
  cbn [snd store set_store]. by rewrite lookup_insert_eq.
Qed.

(** The job leaves memcache alone. *)
Lemma post_cache (t : task) (w : world) :
  cache (run (post t) w) = cache w.
Proof.
  unfold run.
  destruct (decide (fits_int64 (durable w (param_name t) + param_delta t)))
    as [Hfits|Hfits].
  - by destruct (post_fits t w Hfits) as (c & Hc & ->).
  - by rewrite (post_overflow t w Hfits).
Qed.

(** The durable value of another name is not the job's business. *)
Lemma post_durable_other (t : task) (w : world) (other : string) :
  other ≠ param_name t →
  store (run (post t) w) !! other = store w !! other.
Proof.
  intros Hne. unfold run.
  destruct (decide (fits_int64 (durable w (param_name t) + param_delta t)))
    as [Hfits|Hfits].
  - destruct (post_fits t w Hfits) as (c & Hc & ->).
    cbn [snd store set_store]. by apply lookup_insert_ne.
  - by rewrite (post_overflow t w Hfits).
Qed.

(** C4, as the code runs it: the record of x holds 2^63 - 1 and the job
    carries 1; the specification has the record end at 2^63, the
    [IntegerProperty] refuses that value and the record is not written. *)
Lemma job_refused_at_the_bound :
  ¬ job_as_specified (job_for_x 1) full_world.
Proof.
  unfold job_as_specified. vm_compute. discriminate.
Qed.

(** C4 amended: the job body runs in one transaction that reads the
    record of the name and computes its new value, [delta] when the
    record is absent and value + delta otherwise.  When the new value
    fits a signed 64-bit integer the job returns normally, the record
    holds the new value, and nothing else has changed; when it does not
    fit, the job raises [BadValueError] and the transaction has written
    nothing. *)
Theorem post_applies_delta (t : task) (w : world) :
  let name := param_name t in
  let new := match store w !! name with
             | None => param_delta t
             | Some c => value c + param_delta t
             end in
  if decide (fits_int64 new) then
    outcome (post t) w = Ok ()
    ∧ value <$> store (run (post t) w) !! name = Some new
    ∧ (∀ other, other ≠ name →
                store (run (post t) w) !! other = store w !! other)
    ∧ cache (run (post t) w) = cache w
    ∧ queue (run (post t) w) = queue w
    ∧ log (run (post t) w) = log w
  else
    post t w = (Raise BadValueError, w).
Proof.
  intros name new. subst new. rewrite durable_plus. subst name.
  case_decide as Hfits.
  - split; [|split; [|split]].
    + unfold outcome. by destruct (post_fits t w Hfits) as (c & Hc & ->).
    + unfold run. destruct (post_fits t w Hfits) as (c & Hc & ->).
      cbn [snd store set_store]. rewrite lookup_insert_eq. cbn. by rewrite Hc.
    + intros other Hne. by apply post_durable_other.
    + unfold run. by destruct (post_fits t w Hfits) as (c & Hc & ->).
  - by apply post_overflow.
Qed.

(** C9, as the code runs it: a job carrying 2^62 for a counter without a
    record, delivered twice.  The first run creates the record with
    2^62, the second is refused at 2^63, and the durable value has moved
    by D, not by 2D. *)
Lemma redelivery_refused_at_the_bound :
  ¬ redelivery_as_specified (job_for_x (2 ^ 62)) empty_world.
Proof.
  unfold redelivery_as_specified. vm_compute. discriminate.
Qed.

(** C9 amended: the job deduplicates nothing.  Whenever the durable
    value plus 2D still fits a signed 64-bit integer, two runs of the
    job for (name, D) both return normally and move the durable value by
    2D, where one run moves it by D: the second run adds D once more. *)
Theorem post_twice_adds_twice (t : task) (w : world) :
  fits_int64 (durable w (param_name t) + 2 * param_delta t) →
  let name := param_name t in
  let D := param_delta t in
  outcome (post t ;; post t) w = Ok ()
  ∧ durable (run (post t) w) name = durable w name + D
  ∧ durable (run (post t ;; post t) w) name = durable w name + 2 * D
  ∧ durable (run (post t ;; post t) w) name
    - durable (run (post t) w) name = D.
Proof.
  intros Hfits2 name D.
  pose proof (durable_fits w name) as Hfits0.
  assert (fits_int64 (durable w name + D)) as Hfits1.
  { unfold fits_int64 in *. subst name D. lia. }
  pose proof (post_durable t w Hfits1) as Hone. fold name D in Hone.
  assert (fits_int64 (durable (run (post t) w) name + D)) as Hfits1'.
  { rewrite Hone. unfold fits_int64 in *. subst name D. lia. }
  pose proof (post_durable t (run (post t) w) Hfits1') as Htwo.
  fold name D in Htwo.
  destruct (post_fits t w Hfits1) as (c1 & Hc1 & Hpost1).
  destruct (post_fits t (run (post t) w) Hfits1') as (c2 & Hc2 & Hpost2).
  assert ((post t ;; post t) w = post t (run (post t) w)) as Hseq.
  { unfold run. rewrite Hpost1. apply (seq_ok _ _ _ _ Hpost1). }
  unfold run at 2 3, outcome. rewrite Hseq.
  fold (run (post t) (run (post t) w)). rewrite Htwo, Hone.
  split; [by rewrite Hpost2|]. repeat split; lia.
Qed.

Lemma post_twice_adds_twice_witness :
  durable (run (post (job_for_x 5) ;; post (job_for_x 5)) mixed_world) "x"
  = 0 + 2 * 5.
Proof.
  destruct (post_twice_adds_twice (job_for_x 5) mixed_world)
    as (_ & _ & Htwo & _).
  - vm_compute. split; discriminate.
  - exact Htwo.
Defined.

(** ** Increments *)

(** The first memcache call of [incr] always returns; an integer answer is
    the new content of the slot, [None] means memcache was left as it was.
    Datastore, queue and log are not involved. *)
Lemma update_memcache_inv (e : env) (key : string) (delta : Z)
    (w w1 : world) (r : res pyval) :
  update_memcache e key delta w = (r, w1) →
  ∃ v, r = Ok v
       ∧ w1 = set_cache match v with
                        | PyInt n => <[key := PyInt n]> (cache w)
                        | PyNone => cache w
                        end w.
Proof.
  unfold update_memcache, on_cache, memcache.incr, memcache.decr.
  destruct w as [mc ds q l]. cbn [cache set_cache store queue log].
  intros H.
  case_decide; destruct (update_rpc e); cbn in H;
    destruct (mc !! key) as [[|n]|]; simplify_eq; eexists; split; reflexivity.
Qed.

(** One step of a sequence of statements. *)
Ltac bind_step := unfold mbind at 1, M_bind at 1.

(** [incr] with the monad unfolded, path by path. *)
Lemma incr_eq (e : env) (name : string) (delta ui : Z) (w : world) :
  incr e name delta ui w =
  let lock_key := "ctr_lck:" +:+ name in
  let delta_key := "ctr_val:" +:+ name in
  match update_memcache e delta_key delta w with
  | (Raise x, w1) => (Raise x, w1)
  | (Ok v, w1) =>
      match memcache.add (add_rpc e) lock_key PyNone ui (cache w1) with
      | (false, mc2) => (Ok (), set_cache mc2 w1)
      | (true, mc2) =>
          match v with
          | PyNone => (Raise TypeError, set_cache mc2 w1)
          | PyInt n =>
              let D := n - BASE_VALUE in
              if decide (D = 0) then (Ok (), set_cache mc2 w1)
              else if enqueue_ok e then
                let q3 := queue w1 ++ [persist_task e name D] in
                let mc3 := others e mc2 in
                let '(r, mc4) :=
                  if decide (D > 0)
                  then memcache.decr (reset_rpc e) delta_key D None mc3
                  else memcache.incr (reset_rpc e) delta_key (- D) None mc3 in
                (Ok (),
                 mkWorld mc4 (store w1) q3
                   (if bool_decide (r = PyNone)
                    then log w1 ++ [(name, D)] else log w1))
              else (Ok (), set_cache mc2 w1)
          end
      end
  end.
Proof.
  unfold incr. cbv zeta. bind_step.
  destruct (update_memcache _ _ _ w) as [[v|x] w1]; [|done].
  bind_step; unfold on_cache at 1.
  destruct (memcache.add _ _ _ _ (cache w1)) as [[|] mc2]; [|done].
  bind_step; unfold lift_res.
  destruct v as [|n]; [done|]. cbn [int].
  case_decide as HD; [done|].
  bind_step; unfold try_except, taskqueue.add, persist_task.
  bind_step.
  destruct (enqueue_ok e); [|done]. cbn [mret M_ret].
  bind_step; unfold on_cache at 1. cbn [cache set_queue set_cache].
  bind_step.
  destruct (decide (n - BASE_VALUE > 0)) as [Hpos|Hnpos].
  - bind_step; unfold on_cache.
    cbn [cache set_queue set_cache store queue log].
    destruct (memcache.decr _ _ _ _ _) as [r mc4]. cbn [mret M_ret].
    unfold logging.warn. by destruct (bool_decide (r = PyNone)).
  - rewrite decide_True by lia.
    bind_step; unfold on_cache.
    cbn [cache set_queue set_cache store queue log].
    destruct (memcache.incr _ _ _ _ _) as [r mc4]. cbn [mret M_ret].
    unfold logging.warn. by destruct (bool_decide (r = PyNone)).
Qed.

(** After the first memcache call the throttle flag is where it was. *)
Lemma update_memcache_lock (e : env) (name : string) (delta : Z)
    (w w1 : world) (v : pyval) :
  update_memcache e ("ctr_val:" +:+ name) delta w = (Ok v, w1) →
  cache w1 !! ("ctr_lck:" +:+ name) = cache w !! ("ctr_lck:" +:+ name).
Proof.
  intros H. apply update_memcache_inv in H as (v' & Hv & ->).
  simplify_eq. cbn [cache set_cache].
  destruct v' as [|n]; [done|].
  apply lookup_insert_ne, val_key_not_lock_key.
Qed.

(** [incr] raises in one case only: the first memcache call answered
    [None] and the throttle flag was won; then it raises [TypeError]. *)
Lemma incr_outcome (e : env) (name : string) (delta ui : Z) (w : world) :
  outcome (incr e name delta ui) w =
  match update_memcache e ("ctr_val:" +:+ name) delta w with
  | (Ok PyNone, w1) =>
      if (memcache.add (add_rpc e) ("ctr_lck:" +:+ name) PyNone ui
            (cache w1)).1
      then Raise TypeError else Ok ()
  | _ => Ok ()
  end.
Proof.
  unfold outcome. rewrite incr_eq. cbv zeta.
  destruct (update_memcache _ _ _ w) as [r w1] eqn:Hupd.
  destruct (update_memcache_inv _ _ _ _ _ _ Hupd) as (v & -> & _).
  destruct (memcache.add _ _ _ _ (cache w1)) as [[|] mc2]; cbn [fst];
    destruct v as [|n]; try done.
  case_decide; [done|]. destruct (enqueue_ok e); [|done].
  by destruct (if decide (n - BASE_VALUE > 0) then _ else _).
Qed.

(** *** The flush

    What [incr] does once it is the call that flushes: the first memcache
    call answered the raw value [v] and left the world [w1], the throttle
    flag was absent and its creation got through, and the delta to
    persist, [v - BASE_VALUE], is not zero. *)
Section flush.

Context (e : env) (name : string) (delta ui : Z) (w w1 : world) (v : Z).

Hypothesis Hupd :
  update_memcache e ("ctr_val:" +:+ name) delta w = (Ok (PyInt v), w1).
Hypothesis Hadd : add_rpc e = true.
Hypothesis Hlock : cache w !! ("ctr_lck:" +:+ name) = None.
Hypothesis HD : v - BASE_VALUE ≠ 0.

Lemma flush_flag_won :
  memcache.add (add_rpc e) ("ctr_lck:" +:+ name) PyNone ui (cache w1)
  = (true, <["ctr_lck:" +:+ name := PyNone]> (cache w1)).
Proof.
  unfold memcache.add.
  by rewrite Hadd, (update_memcache_lock _ _ _ _ _ _ Hupd), Hlock.
Qed.

Lemma flush_world_after_update :
  w1 = set_cache (<["ctr_val:" +:+ name := PyInt v]> (cache w)) w.
Proof.
  destruct (update_memcache_inv _ _ _ _ _ _ Hupd) as (v' & Hv & ->).
  by simplify_eq.
Qed.

(** C3: when the flush cannot submit its job (the task queue refuses it),
    [incr] returns normally, nothing is queued and the datastore is not
    written, and memcache is what the update and the flag left: the slot
    still holds the raw value [v] with the whole accumulated delta. *)
Theorem incr_enqueue_refused :
  enqueue_ok e = false →
  outcome (incr e name delta ui) w = Ok ()
  ∧ store (run (incr e name delta ui) w) = store w
  ∧ queue (run (incr e name delta ui) w) = queue w
  ∧ log (run (incr e name delta ui) w) = log w
  ∧ cache (run (incr e name delta ui) w)
    = <["ctr_lck:" +:+ name := PyNone]> (cache w1)
  ∧ cache (run (incr e name delta ui) w) !! ("ctr_val:" +:+ name)
    = Some (PyInt v).
Proof.
  intros Henq.
  unfold run, outcome. rewrite incr_eq. cbv zeta.
  rewrite Hupd, flush_flag_won, decide_False by exact HD.
  rewrite Henq. cbn [fst snd].
  rewrite flush_world_after_update. cbn [cache store queue log set_cache].
  repeat split.
  rewrite lookup_insert_ne by (apply not_eq_sym, val_key_not_lock_key).
  apply lookup_insert_eq.
Qed.

(** C2: when [incr] has won the throttle flag with a non-zero delta [D]
    to persist and the job has been submitted, it corrects the slot once,
    on memcache as it is by then: a decrement by [D] when [D > 0], an
    increment by [-D] when [D < 0].  When the correction gets no integer
    back (slot missing, or the call fails) memcache is left as it is, one
    warning with the name and [D] is logged, and [incr] still returns
    normally; in either case the datastore is untouched and exactly the
    one job is queued. *)
Theorem incr_flush_correction :
  enqueue_ok e = true →
  let D := v - BASE_VALUE in
  let mc := others e (<["ctr_lck:" +:+ name := PyNone]> (cache w1)) in
  let w' := run (incr e name delta ui) w in
  outcome (incr e name delta ui) w = Ok ()
  ∧ store w' = store w
  ∧ queue w' = queue w ++ [persist_task e name D]
  ∧ match (if reset_rpc e then mc !! ("ctr_val:" +:+ name) else None) with
    | Some (PyInt n) =>
        cache w'
        = <["ctr_val:" +:+ name :=
              PyInt (if decide (D > 0) then Z.max 0 (n - D)
                     else (n + - D) `mod` memcache.UINT64)]> mc
        ∧ log w' = log w
    | _ => cache w' = mc ∧ log w' = log w ++ [(name, D)]
    end.
Proof.
  intros Henq D mc w'.
  subst w'. unfold run, outcome. rewrite incr_eq. cbv zeta.
  rewrite Hupd, flush_flag_won, decide_False by exact HD.
  rewrite Henq. fold D. fold mc.
  assert (store w1 = store w ∧ queue w1 = queue w ∧ log w1 = log w)
    as (-> & -> & ->) by (by rewrite flush_world_after_update).
  unfold memcache.decr, memcache.incr.
  destruct (decide (D > 0)) as [Hpos|Hneg];
    destruct (reset_rpc e);
    destruct (mc !! ("ctr_val:" +:+ name)) as [[|n]|];
    cbn [fst snd cache store queue log]; repeat split.
Qed.

End flush.

Lemma incr_enqueue_refused_witness :
  outcome (incr queue_down "x" 5 10) empty_world = Ok ()
  ∧ queue (run (incr queue_down "x" 5 10) empty_world) = []
  ∧ cache (run (incr queue_down "x" 5 10) empty_world) !! "ctr_val:x"
    = Some (PyInt (BASE_VALUE + 5)).
Proof.
  destruct (incr_enqueue_refused queue_down "x" 5 10 empty_world
              (set_cache {[ "ctr_val:x" := PyInt (BASE_VALUE + 5) ]} empty_world)
              (BASE_VALUE + 5))
    as (Hout & _ & Hq & _ & _ & Hslot).
  - vm_compute. reflexivity.
  - reflexivity.
  - reflexivity.
  - vm_compute. discriminate.
  - reflexivity.
  - repeat split; assumption.
Defined.

Lemma incr_flush_correction_witness :
  outcome (incr (calm 0) "x" 5 10) empty_world = Ok ()
  ∧ queue (run (incr (calm 0) "x" 5 10) empty_world)
    = [persist_task (calm 0) "x" 5]
  ∧ cache (run (incr (calm 0) "x" 5 10) empty_world) !! "ctr_val:x"
    = Some (PyInt BASE_VALUE)
  ∧ log (run (incr (calm 0) "x" 5 10) empty_world) = [].
Proof.
  destruct (incr_flush_correction (calm 0) "x" 5 10 empty_world
              (set_cache {[ "ctr_val:x" := PyInt (BASE_VALUE + 5) ]} empty_world)
              (BASE_VALUE + 5))
    as (Hout & _ & Hq & Hfix).
  - vm_compute. reflexivity.
  - reflexivity.
  - reflexivity.
  - vm_compute. discriminate.
  - reflexivity.
  - split; [exact Hout|]. split; [exact Hq|].
    destruct Hfix as [Hc Hl]. rewrite Hc. split; [reflexivity | exact Hl].
Defined.

(** The other branch of the correction, run: the slot is evicted after
    the job was submitted; the correction finds nothing, one warning is
    logged, and the call returns normally. *)
Example incr_correction_on_evicted_slot :
  incr (evicting "x") "x" 5 10 empty_world
  = (Ok (),
     mkWorld {[ "ctr_lck:x" := PyNone ]} ∅
       [persist_task (evicting "x") "x" 5] [("x", 5)]).
Proof. vm_compute. reflexivity. Qed.

(** C6, evaluated on a failing memcache: the first memcache call of
    [incr] gets no answer (it returns [None]) and the call that creates
    the throttle flag succeeds; [int(None)] then raises [TypeError] out of
    [incr], which has meanwhile set the flag and counted nothing. *)
Theorem incr_raises_on_unanswered_update :
  incr flaky_update "x" 1 10 empty_world
  = (Raise TypeError, mkWorld {[ "ctr_lck:x" := PyNone ]} ∅ [] []).
Proof. vm_compute. reflexivity. Qed.

(** An evicted slot alone is no failure: with memcache answering, the
    slot restarts from [BASE_VALUE] and [incr] returns normally. *)
Lemma incr_on_absent_slot (e : env) (name : string) (delta ui : Z)
    (w : world) :
  update_rpc e = true →
  cache w !! ("ctr_val:" +:+ name) = None →
  outcome (incr e name delta ui) w = Ok ()
  ∧ (update_memcache e ("ctr_val:" +:+ name) delta w).1
    = Ok (PyInt (if decide (delta >= 0)
                 then (BASE_VALUE + delta) `mod` memcache.UINT64
                 else Z.max 0 (BASE_VALUE - - delta))).
Proof.
  intros Hrpc Hslot. rewrite incr_outcome.
  unfold update_memcache.
  case_decide; unfold on_cache, memcache.incr, memcache.decr;
    by rewrite Hrpc, Hslot.
Qed.

(** ** Sequences of calls *)

Lemma get_count_same_slot (w w' : world) (name : string) :
  store w' !! name = store w !! name →
  py_or (memcache.get (cache w') ("ctr_val:" +:+ name)) BASE_VALUE
  = py_or (memcache.get (cache w) ("ctr_val:" +:+ name)) BASE_VALUE →
  get_count w' name = get_count w name.
Proof.
  intros Hs Hc. rewrite !get_count_merge, Hc. unfold durable. by rewrite Hs.
Qed.

(** A first increment by a positive [d] on a counter that has neither
    slot nor flag flushes itself: the job carries [d] and the slot is
    back at [BASE_VALUE]. *)
Lemma incr_fresh_flush (e : env) (name : string) (d ui : Z) (w : world) :
  0 < d < 2 ^ 63 →
  cache w !! ("ctr_lck:" +:+ name) = None →
  cache w !! ("ctr_val:" +:+ name) = None →
  update_rpc e = true → add_rpc e = true → enqueue_ok e = true →
  reset_rpc e = true → undisturbed e name →
  incr e name d ui w
  = (Ok (),
     mkWorld
       (<["ctr_val:" +:+ name := PyInt BASE_VALUE]>
          (others e (<["ctr_lck:" +:+ name := PyNone]>
                       (<["ctr_val:" +:+ name := PyInt (BASE_VALUE + d)]>
                          (cache w)))))
       (store w) (queue w ++ [persist_task e name d]) (log w)).
Proof.
  intros Hd Hlock Hslot Hupd Hadd Henq Hreset Hund.
  rewrite incr_eq. cbv zeta.
  unfold update_memcache. rewrite decide_True by lia.
  unfold on_cache, memcache.incr, memcache.add.
  rewrite Hupd, Hslot, Hadd. cbn [cache set_cache store queue log].
  rewrite Z.mod_small by (rewrite BASE_VALUE_eq, UINT64_eq; lia).
  rewrite lookup_insert_ne by apply val_key_not_lock_key.
  rewrite Hlock, decide_False by lia. rewrite Henq, decide_True by lia.
  unfold memcache.decr. rewrite Hreset.
  destruct (Hund (<["ctr_lck:" +:+ name := PyNone]>
                    (<["ctr_val:" +:+ name := PyInt (BASE_VALUE + d)]>
                       (cache w)))) as [-> _].
  rewrite lookup_insert_ne by (apply not_eq_sym, val_key_not_lock_key).
  rewrite lookup_insert_eq.
  replace (BASE_VALUE + d - BASE_VALUE) with d by lia.
  replace (Z.max 0 (BASE_VALUE + d - d)) with BASE_VALUE
    by (rewrite BASE_VALUE_eq; lia).
  reflexivity.
Qed.

(** An increment while the throttle flag is there only moves the slot. *)
Lemma incr_throttled (e : env) (name : string) (d ui n : Z) (x : pyval)
    (w : world) :
  0 <= d → 0 <= n → n + d < memcache.UINT64 →
  cache w !! ("ctr_lck:" +:+ name) = Some x →
  cache w !! ("ctr_val:" +:+ name) = Some (PyInt n) →
  update_rpc e = true →
  incr e name d ui w
  = (Ok (), set_cache (<["ctr_val:" +:+ name := PyInt (n + d)]> (cache w)) w).
Proof.
  intros Hd Hn Hnd Hlock Hslot Hupd.
  rewrite incr_eq. cbv zeta.
  unfold update_memcache. rewrite decide_True by lia.
  unfold on_cache, memcache.incr, memcache.add.
  rewrite Hupd, Hslot. cbn [cache set_cache store queue log].
  rewrite Z.mod_small by lia.
  rewrite lookup_insert_ne by apply val_key_not_lock_key.
  rewrite Hlock. by destruct (add_rpc e).
Qed.

(** C7, as the code runs it: the specification expects the count 8; the
    first [incr] of a fresh counter wins the throttle flag and flushes
    its own 5 at once. *)
Lemma scenario_counts_three_not_eight :
  ¬ scenario_as_specified (calm 0) (calm 0) empty_world.
Proof.
  intros H. destruct H as [H8 _]; [reflexivity..|].
  vm_compute in H8. discriminate.
Qed.

(** C7 amended: from a world with no flag, no slot and no record for x,
    with memcache and the task queue answering and nobody else touching
    x in between, incr("x", 5) then incr("x", 3) return normally and,
    before any job has run, the count of x is 3, x has no durable record
    and the one job queued carries 5 for x; once that job has run the
    count is 8. *)
Theorem scenario_first_incr_flushes (e1 e2 : env) (ui1 ui2 : Z) (w : world) :
  cache w !! "ctr_lck:x" = None →
  cache w !! "ctr_val:x" = None →
  store w !! "x" = None →
  update_rpc e1 = true → add_rpc e1 = true → enqueue_ok e1 = true →
  reset_rpc e1 = true → undisturbed e1 "x" →
  update_rpc e2 = true →
  let calls := incr e1 "x" 5 ui1 ;; incr e2 "x" 3 ui2 in
  outcome calls w = Ok ()
  ∧ get_count (run calls w) "x" = 3
  ∧ store (run calls w) !! "x" = None
  ∧ queue (run calls w) = queue w ++ [persist_task e1 "x" 5]
  ∧ get_count (run (post (persist_task e1 "x" 5)) (run calls w)) "x" = 8.
Proof.
  intros Hlock Hslot Hrec Hupd1 Hadd1 Henq1 Hreset1 Hund Hupd2 calls.
  assert (0 < 5 < 2 ^ 63) as H5 by lia.
  pose proof (incr_fresh_flush e1 "x" 5 ui1 w H5 Hlock Hslot
                Hupd1 Hadd1 Henq1 Hreset1 Hund) as Hfirst.
  set (mc := others e1 _) in Hfirst.
  assert (mc !! ("ctr_lck:" +:+ "x") = Some PyNone) as Hflag.
  { subst mc. destruct (Hund (<["ctr_lck:" +:+ "x" := PyNone]>
      (<["ctr_val:" +:+ "x" := PyInt (BASE_VALUE + 5)]> (cache w))))
      as [_ ->]. apply lookup_insert_eq. }
  set (w1 := mkWorld _ _ _ _) in Hfirst.
  assert (incr e2 "x" 3 ui2 w1
          = (Ok (), set_cache (<["ctr_val:" +:+ "x" := PyInt (BASE_VALUE + 3)]>
                                 (cache w1)) w1)) as Hsecond.
  { apply (incr_throttled e2 "x" 3 ui2 BASE_VALUE PyNone w1);
      try (rewrite ?BASE_VALUE_eq, ?UINT64_eq; lia); [| |done].
    - subst w1. cbn [cache].
      rewrite lookup_insert_ne by apply val_key_not_lock_key. exact Hflag.
    - subst w1. cbn [cache]. apply lookup_insert_eq. }
  assert (calls w = (Ok (), set_cache
            (<["ctr_val:" +:+ "x" := PyInt (BASE_VALUE + 3)]> (cache w1)) w1))
    as Hcalls.
  { subst calls. rewrite (seq_ok _ _ _ _ Hfirst). exact Hsecond. }
  unfold run, outcome. rewrite Hcalls. cbn [fst snd].
  assert (∀ ds, get_count (mkWorld
            (<["ctr_val:" +:+ "x" := PyInt (BASE_VALUE + 3)]> (cache w1))
            ds (queue w1) (log w1)) "x" = durable (mkWorld ∅ ds [] []) "x" + 3)
    as Hcount.
  { intros ds. rewrite get_count_merge. unfold memcache.get, durable.
    cbn [cache store]. rewrite lookup_insert_eq.
    change (py_or (default PyNone (Some (PyInt (BASE_VALUE + 3)))) BASE_VALUE)
      with (BASE_VALUE + 3).
    lia. }
  repeat split.
  - unfold set_cache. rewrite Hcount. unfold durable. cbn [store].
    subst w1. cbn [store]. by rewrite Hrec.
  - subst w1. cbn [store set_cache]. exact Hrec.
  - set (w2 := set_cache _ w1).
    assert (durable w2 "x" = 0) as Hd0.
    { unfold durable. subst w2 w1. cbn [store set_cache]. by rewrite Hrec. }
    assert (get_count w2 "x" = 3) as H3.
    { subst w2. unfold set_cache. rewrite Hcount. unfold durable. cbn [store].
      subst w1. cbn [store]. by rewrite Hrec. }
    change ((post (persist_task e1 "x" 5) w2).2)
      with (run (post (persist_task e1 "x" 5)) w2).
    rewrite get_count_merge, post_cache.
    pose proof (post_durable (persist_task e1 "x" 5) w2) as Hpd.
    cbn [persist_task param_name param_delta] in Hpd.
    rewrite Hpd by (rewrite Hd0; vm_compute; split; discriminate).
    rewrite get_count_merge in H3. lia.
Qed.

Lemma scenario_first_incr_flushes_witness :
  get_count (run (incr (calm 0) "x" 5 10 ;; incr (calm 0) "x" 3 10)
               empty_world) "x" = 3
  ∧ store (run (incr (calm 0) "x" 5 10 ;; incr (calm 0) "x" 3 10)
             empty_world) !! "x" = None
  ∧ queue (run (incr (calm 0) "x" 5 10 ;; incr (calm 0) "x" 3 10)
             empty_world) = [persist_task (calm 0) "x" 5].
Proof.
  destruct (scenario_first_incr_flushes (calm 0) (calm 0) 10 10 empty_world)
    as (_ & Hcount & Hrec & Hq & _).
  - reflexivity.
  - reflexivity.
  - reflexivity.
  - reflexivity.
  - reflexivity.
  - reflexivity.
  - reflexivity.
  - intros mc. split; reflexivity.
  - reflexivity.
  - split; [exact Hcount|]. split; [exact Hrec | exact Hq].
Defined.

(** When the task queue refuses the first job nothing leaves the slot,
    and the scenario does read 8. *)
Example scenario_with_queue_down :
  get_count (run (incr queue_down "x" 5 10 ;; incr (calm 0) "x" 3 10)
               empty_world) "x" = 8.
Proof. vm_compute. reflexivity. Qed.

(** ** Zero increments *)

(** With a zero delta the first memcache call changes neither the count
    nor anything outside memcache. *)
Lemma update_zero_keeps_count (e : env) (name : string) (w w1 : world)
    (r : res pyval) :
  slot_in_range w name →
  update_memcache e ("ctr_val:" +:+ name) 0 w = (r, w1) →
  store w1 = store w ∧ queue w1 = queue w
  ∧ py_or (memcache.get (cache w1) ("ctr_val:" +:+ name)) BASE_VALUE
    = py_or (memcache.get (cache w) ("ctr_val:" +:+ name)) BASE_VALUE.
Proof.
  intros Hrange Hupd. unfold update_memcache in Hupd.
  rewrite decide_True in Hupd by lia.
  unfold on_cache, memcache.incr in Hupd.
  destruct (update_rpc e); [|by simplify_eq].
  unfold memcache.get.
  destruct (cache w !! ("ctr_val:" +:+ name)) as [[|n]|] eqn:Hslot;
    simplify_eq; cbn [cache store queue set_cache]; rewrite ?Hslot;
    try done; rewrite lookup_insert_eq; repeat split.
  rewrite Z.add_0_r, Z.mod_small by (by apply Hrange). done.
Qed.

Lemma add_keeps_slot (ok : bool) (name : string) (v : pyval) (time : Z)
    (mc : gmap string pyval) :
  (memcache.add ok ("ctr_lck:" +:+ name) v time mc).2
    !! ("ctr_val:" +:+ name)
  = mc !! ("ctr_val:" +:+ name).
Proof.
  unfold memcache.add. destruct ok; [|done].
  destruct (mc !! ("ctr_lck:" +:+ name)); [done|].
  apply lookup_insert_ne, not_eq_sym, val_key_not_lock_key.
Qed.

(** C8, as the code runs it: five increments wait in the slot of x and
    the flag is gone; incr("x", 0) wins the flag and flushes them, and
    the count read goes from 5 to 0 until the job has run. *)
Lemma incr_zero_flush_moves_count :
  ¬ zero_incr_as_specified (calm 0) pending_world "x".
Proof.
  unfold zero_incr_as_specified. vm_compute. discriminate.
Qed.

(** C8 amended: an incr with delta 0 that submits no job (the flag is not
    won, or nothing is accumulated, or the task queue refuses the job)
    leaves the count read by [get_count] for that name as it was,
    whatever memcache answers and however the call ends. *)
Theorem incr_zero_without_flush (e : env) (name : string) (ui : Z)
    (w : world) :
  slot_in_range w name →
  queue (run (incr e name 0 ui) w) = queue w →
  get_count (run (incr e name 0 ui) w) name = get_count w name.
Proof.
  intros Hrange. unfold run. rewrite incr_eq. cbv zeta.
  destruct (update_memcache e _ 0 w) as [r w1] eqn:Hupd.
  destruct (update_zero_keeps_count _ _ _ _ _ Hrange Hupd)
    as (Hs & Hq & Hslot).
  destruct (update_memcache_inv _ _ _ _ _ _ Hupd) as (v & -> & _).
  pose proof (add_keeps_slot (add_rpc e) name PyNone ui (cache w1)) as Hadd.
  destruct (memcache.add _ _ _ _ (cache w1)) as [won mc2]. cbn [snd] in Hadd.
  assert (get_count (set_cache mc2 w1) name = get_count w name) as Hsame.
  { apply get_count_same_slot; cbn [store cache set_cache]; [by rewrite Hs|].
    unfold memcache.get in *. by rewrite Hadd. }
  destruct won; [|done]. destruct v as [|n]; [done|].
  case_decide; [done|]. destruct (enqueue_ok e); [|done].
  destruct (if decide (n - BASE_VALUE > 0) then _ else _) as [r' mc4].
  cbn [snd queue]. rewrite Hq. intros Hgrow.
  apply (f_equal length) in Hgrow. rewrite length_app in Hgrow.
  cbn [length] in Hgrow. lia.
Qed.

Lemma incr_zero_without_flush_witness :
  get_count (run (incr (calm 0) "x" 0 10) throttled_world) "x" = 5.
Proof.
  rewrite (incr_zero_without_flush (calm 0) "x" 10 throttled_world).
  - reflexivity.
  - intros n Hn. vm_compute in Hn. injection Hn as <-. vm_compute.
    split; [discriminate | reflexivity].
  - vm_compute. reflexivity.
Defined.

(** * Further properties of the module *)

(** ** The batch read *)

(** The loop of [get_counts] against any per-name value [f]: it returns
    [f] of every name, in order, as long as each item finds its datastore
    answer and an integer in the dict that makes up [f]. *)
Lemma get_counts_loop_by (w : world) (db_counts : list (option Counter))
    (mc_counts : gmap string pyval) (f : string → Z)
    (items : list (nat * string)) (ret : list Z) :
  Forall (λ it, db_counts !! it.1 = Some (store w !! it.2)
                ∧ ∃ n, default (PyInt BASE_VALUE) (mc_counts !! it.2) = PyInt n
                       ∧ f it.2 = durable w it.2 + n - BASE_VALUE)
         items →
  get_counts_loop db_counts mc_counts items ret
  = Ok (ret ++ (f <$> (snd <$> items))).
Proof.
  revert ret. induction items as [|[i name] rest IH]; intros ret Hall.
  - simpl. by rewrite app_nil_r.
  - apply Forall_cons in Hall as [[Hdb (n & Hmc & Hf)] Hrest].
    simpl in Hdb, Hmc, Hf. simpl. rewrite Hdb, Hmc. simpl.
    rewrite (IH _ Hrest). f_equal.
    rewrite <- app_assoc. simpl. do 2 f_equal.
    rewrite Hf, durable_lookup. lia.
Qed.

(** The datastore answers of [get_counts] line up with the names. *)
Lemma get_counts_db_lookup (w : world) (names : list string) (i : nat)
    (name : string) :
  names !! i = Some name →
  db.get (store w) (db.Key_from_path "Counter" <$> names) !! i
  = Some (store w !! name).
Proof.
  intros Hn. unfold db.get, db.Key_from_path.
  by rewrite !list_lookup_fmap, Hn.
Qed.

Lemma get_counts_by (w : world) (names : list string) (f : string → Z) :
  (∀ name, name ∈ names →
     ∃ n, default (PyInt BASE_VALUE) (cache w !! ("ctr_val:" +:+ name))
          = PyInt n
          ∧ f name = durable w name + n - BASE_VALUE) →
  get_counts w names = Ok (f <$> names).
Proof.
  intros Hf. unfold get_counts.
  rewrite (get_counts_loop_by w _ _ f); [by rewrite enumerate_snd|].
  apply Forall_lookup. intros i [j name] Hi.
  rewrite enumerate_lookup in Hi.
  destruct (names !! i) as [name'|] eqn:Hn; simplify_eq/=.
  split; [by apply get_counts_db_lookup|].
  assert (name ∈ names) as Hin by (apply list_elem_of_lookup; eauto).
  rewrite get_multi_lookup, decide_True by done. by apply Hf.
Qed.

(** X1: as long as no asked slot holds [None], [get_counts] returns, in
    the order of the input and for any list of names (repeated ones
    included), the durable value (0 without a record) plus the raw value
    of a present slot, [BASE_VALUE] for an absent one, minus [BASE_VALUE];
    a raw value 0 counts as what it is. *)
Theorem get_counts_follows_formula (w : world) (names : list string) :
  (∀ name, name ∈ names → cache w !! ("ctr_val:" +:+ name) ≠ Some PyNone) →
  get_counts w names = Ok (merge_as_specified w <$> names).
Proof.
  intros Hslots. apply get_counts_by. intros name Hin.
  specialize (Hslots name Hin). unfold merge_as_specified.
  destruct (cache w !! ("ctr_val:" +:+ name)) as [[|n]|]; [done|..];
    eexists; (split; [reflexivity|lia]).
Qed.

Lemma get_counts_follows_formula_witness :
  get_counts zero_slot_world ["x"; "y"; "x"]
  = Ok (merge_as_specified zero_slot_world <$> ["x"; "y"; "x"]).
Proof.
  apply (get_counts_follows_formula zero_slot_world ["x"; "y"; "x"]).
  intros name Hin.
  rewrite !elem_of_cons, elem_of_nil in Hin.
  destruct Hin as [->|[->|[->|[]]]]; vm_compute; discriminate.
Defined.

(** X2: on names whose slots are absent or hold a non-zero integer the
    batch has one element per name and its i-th element is what
    [get_count] returns for the i-th name. *)
Theorem get_counts_pointwise (w : world) (names : list string) :
  (∀ name, name ∈ names →
           cache w !! ("ctr_val:" +:+ name) = None
           ∨ ∃ n, n ≠ 0 ∧ cache w !! ("ctr_val:" +:+ name) = Some (PyInt n)) →
  ∃ l, get_counts w names = Ok l
       ∧ length l = length names
       ∧ ∀ i name, names !! i = Some name →
                   l !! i = Some (get_count w name).
Proof.
  intros Hslots. exists (get_count w <$> names).
  split; [by apply get_counts_off_zero|].
  split; [apply length_fmap|].
  intros i name Hi. by rewrite list_lookup_fmap, Hi.
Qed.

Lemma get_counts_pointwise_witness :
  ∃ l, get_counts mixed_world ["y"; "x"] = Ok l
       ∧ length l = 2%nat
       ∧ l !! 1%nat = Some (get_count mixed_world "x").
Proof.
  destruct (get_counts_pointwise mixed_world ["y"; "x"]) as (l & Hl & Hlen & Hith).
  - intros name Hin.
    rewrite !elem_of_cons, elem_of_nil in Hin.
    destruct Hin as [->|[->|[]]].
    + left. reflexivity.
    + right. exists (BASE_VALUE - 4). split; [vm_compute; discriminate|].
      reflexivity.
  - exists l. split; [exact Hl|]. split; [exact Hlen|].
    apply (Hith 1%nat "x"). reflexivity.
Defined.

(** How the loop of [get_counts] can raise: an index past the datastore
    answers, or a [None] in the dict. *)
Lemma get_counts_loop_raise (db_counts : list (option Counter))
    (mc_counts : gmap string pyval) (items : list (nat * string))
    (ret : list Z) (x : exn) :
  get_counts_loop db_counts mc_counts items ret = Raise x →
  ∃ it, it ∈ items
        ∧ ((x = IndexError ∧ db_counts !! it.1 = None)
           ∨ (x = TypeError ∧ mc_counts !! it.2 = Some PyNone)).
Proof.
  revert ret. induction items as [|[i name] rest IH]; intros ret Hr.
  - discriminate.
  - simpl in Hr.
    destruct (db_counts !! i) as [c|] eqn:Hdb.
    + destruct (mc_counts !! name) as [[|n]|] eqn:Hmc; simpl in Hr.
      * simplify_eq. exists (i, name). split; [apply elem_of_cons; by left|].
        right. by split.
      * destruct (IH _ Hr) as (it & Hin & Hit).
        exists it. split; [apply elem_of_cons; by right | done].
      * destruct (IH _ Hr) as (it & Hin & Hit).
        exists it. split; [apply elem_of_cons; by right | done].
    + simplify_eq. exists (i, name). split; [apply elem_of_cons; by left|].
      left. by split.
Qed.

(** X3: the index into the datastore answers is always in bounds:
    [db.get] answers once per key and the loop runs over the same names,
    so [get_counts] never raises [IndexError] at [db_counts[i]], for any
    list of names and any world. *)
Theorem get_counts_index_in_bounds (w : world) (names : list string) :
  get_counts w names ≠ Raise IndexError.
Proof.
  intros Hr. unfold get_counts in Hr.
  apply get_counts_loop_raise in Hr as ([i name] & Hin & Hcase).
  apply list_elem_of_lookup in Hin as [j Hj].
  rewrite enumerate_lookup in Hj.
  destruct (names !! j) as [name'|] eqn:Hn; simplify_eq/=.
  destruct Hcase as [[_ Hdb]|[? _]]; [|done].
  by rewrite (get_counts_db_lookup _ _ _ _ Hn) in Hdb.
Qed.

(** X4: a name with neither slot nor record counts 0, through
    [get_count] and, for any list of such names, through [get_counts]. *)
Theorem unknown_names_count_zero (w : world) (names : list string) :
  (∀ name, name ∈ names →
           cache w !! ("ctr_val:" +:+ name) = None ∧ store w !! name = None) →
  (∀ name, name ∈ names → get_count w name = 0)
  ∧ get_counts w names = Ok ((λ _, 0) <$> names).
Proof.
  intros Hnew. split.
  - intros name Hin. destruct (Hnew name Hin) as [Hc Hs].
    rewrite get_count_merge. unfold durable, memcache.get.
    rewrite Hc, Hs. unfold default, py_or. simpl. lia.
  - apply get_counts_by. intros name Hin.
    destruct (Hnew name Hin) as [Hc Hs]. exists BASE_VALUE.
    unfold durable. rewrite Hc, Hs. split; [done | lia].
Qed.

Lemma unknown_names_count_zero_witness :
  get_counts mixed_world ["a"; "b"] = Ok [0; 0].
Proof.
  apply (unknown_names_count_zero mixed_world ["a"; "b"]).
  intros name Hin.
  rewrite !elem_of_cons, elem_of_nil in Hin.
  destruct Hin as [->|[->|[]]]; split; reflexivity.
Defined.

(** ** Jobs and reads *)

(** X5: a job that the datastore accepts raises [get_count] of its name
    by its delta; a job whose new value does not fit a signed 64-bit
    integer changes no count; and in either case [get_count] of every
    other name is what it was. *)
Theorem post_then_get_count (t : task) (w : world) (name : string) :
  get_count (run (post t) w) name
  = get_count w name
    + (if decide (name = param_name t
                  ∧ fits_int64 (durable w name + param_delta t))
       then param_delta t else 0).
Proof.
  rewrite !get_count_merge, post_cache.
  case_decide as Hcase.
  - destruct Hcase as [-> Hfits]. rewrite post_durable by done. lia.
  - destruct (decide (name = param_name t)) as [->|Hne].
    + assert (¬ fits_int64 (durable w (param_name t) + param_delta t))
        as Hover by (intros Hfits; by apply Hcase).
      unfold run. rewrite (post_overflow t w Hover). cbn [snd]. lia.
    + unfold durable. rewrite post_durable_other by done. lia.
Qed.

(** The job, with the transaction unfolded. *)
Lemma post_eq (t : task) (w : world) :
  post t w
  = match new_Counter (durable w (param_name t) + param_delta t) with
    | Ok c => (Ok (), set_store (<[param_name t := c]> (store w)) w)
    | Raise x => (Raise x, w)
    end.
Proof.
  unfold post, db.run_in_transaction.
  rewrite incr_counter_eq, durable_plus.
  by destruct (new_Counter _).
Qed.

Lemma post_durable_any_other (t : task) (w : world) (other : string) :
  other ≠ param_name t →
  durable (run (post t) w) other = durable w other.
Proof.
  intros Hne. unfold durable. by rewrite post_durable_other.
Qed.

(** X6: two jobs for different counters, or two jobs for the same
    counter whose deltas fit a signed 64-bit integer when added to the
    durable value one at a time and both together, can run in either
    order: each job ends the same way whether or not the other ran
    first, and both orders leave the same world. *)
Theorem post_order_irrelevant (t1 t2 : task) (w : world) :
  param_name t1 ≠ param_name t2
  ∨ (fits_int64 (durable w (param_name t1) + param_delta t1)
     ∧ fits_int64 (durable w (param_name t1) + param_delta t2)
     ∧ fits_int64 (durable w (param_name t1)
                   + param_delta t1 + param_delta t2)) →
  run (post t2) (run (post t1) w) = run (post t1) (run (post t2) w)
  ∧ outcome (post t1) (run (post t2) w) = outcome (post t1) w
  ∧ outcome (post t2) (run (post t1) w) = outcome (post t2) w.
Proof.
  intros Hcase.
  destruct (decide (param_name t1 = param_name t2)) as [Heq|Hne].
  - destruct Hcase as [Hne|(Hf1 & Hf2 & Hf12)]; [done|].
    rewrite Heq in Hf2.
    pose proof (post_durable t1 w Hf1) as Hd1.
    pose proof (post_durable t2 w Hf2) as Hd2.
    destruct (post_fits t1 w Hf1) as (c1 & Hc1 & Hp1).
    destruct (post_fits t2 w Hf2) as (c2 & Hc2 & Hp2).
    assert (fits_int64 (durable (run (post t1) w) (param_name t2)
                        + param_delta t2)) as Hf12'.
    { rewrite <- Heq, Hd1. done. }
    assert (fits_int64 (durable (run (post t2) w) (param_name t1)
                        + param_delta t1)) as Hf21'.
    { rewrite Heq, Hd2, <- Heq.
      by replace (durable w (param_name t1) + param_delta t2 + param_delta t1)
        with (durable w (param_name t1) + param_delta t1 + param_delta t2)
        by lia. }
    destruct (post_fits t2 _ Hf12') as (c12 & Hc12 & Hp12).
    destruct (post_fits t1 _ Hf21') as (c21 & Hc21 & Hp21).
    assert (c12 = c21) as <-.
    { apply Counter_eq. rewrite Hc12, Hc21, <- Heq, Hd1, Heq, Hd2, <- Heq. lia. }
    unfold outcome. rewrite Hp12, Hp21, Hp1, Hp2. cbn [fst].
    split; [|done].
    unfold run at 1 3. rewrite Hp12, Hp21. cbn [snd].
    unfold run. rewrite Hp1, Hp2. cbn [snd set_store cache store queue log].
    by rewrite <- Heq, !insert_insert_eq.
  - clear Hcase.
    pose proof (post_durable_any_other t1 w (param_name t2)
                  (not_eq_sym Hne)) as Hd2.
    pose proof (post_durable_any_other t2 w (param_name t1) Hne) as Hd1.
    unfold outcome, run in *.
    rewrite (post_eq t1 (post t2 w).2), (post_eq t2 (post t1 w).2), Hd1, Hd2.
    rewrite (post_eq t1 w), (post_eq t2 w).
    destruct (new_Counter (durable w (param_name t1) + param_delta t1))
      as [c1|x1],
      (new_Counter (durable w (param_name t2) + param_delta t2))
      as [c2|x2]; cbn [fst snd set_store cache store queue log];
      repeat split.
    by rewrite insert_insert_ne.
Qed.

Lemma post_order_irrelevant_witness :
  run (post (job_for_x (-7))) (run (post (job_for_x 5)) mixed_world)
  = run (post (job_for_x 5)) (run (post (job_for_x (-7))) mixed_world).
Proof.
  destruct (post_order_irrelevant (job_for_x 5) (job_for_x (-7)) mixed_world)
    as (Hsame & _).
  - right. repeat split; vm_compute; discriminate.
  - exact Hsame.
Defined.

(** At the bound of the range the order does matter: with the record of
    x at 2^63 - 1, running +1 first loses it and leaves 2^63 - 2 after
    the -1, while running -1 first leaves 2^63 - 1. *)
Example post_order_matters_at_the_bound :
  durable (run (post (job_for_x (-1))) (run (post (job_for_x 1)) full_world))
    "x" = INT64_MAX - 1
  ∧ durable (run (post (job_for_x 1)) (run (post (job_for_x (-1))) full_world))
      "x" = INT64_MAX.
Proof. split; vm_compute; reflexivity. Qed.

(** ** What one increment can and cannot do *)

Lemma val_key_inj (n m : string) :
  "ctr_val:" +:+ n = "ctr_val:" +:+ m → n = m.
Proof. simpl. intros H. by simplify_eq. Qed.

Lemma randint_bounds (r lo hi : Z) :
  lo <= hi → lo <= randint r lo hi <= hi.
Proof.
  intros H. unfold randint.
  pose proof (Z.mod_pos_bound r (hi - lo + 1)). lia.
Qed.

Lemma pending_app (q : list task) (t : task) (name : string) :
  pending (q ++ [t]) name
  = pending q name
    + (if decide (param_name t = name) then param_delta t else 0).
Proof.
  induction q as [|t' q IH]; cbn [pending app]; [lia|].
  rewrite IH. lia.
Qed.

(** The first memcache call answers an unsigned 64-bit value when the
    slot held one. *)
Lemma update_memcache_range (e : env) (name : string) (delta v : Z)
    (w w1 : world) :
  slot_in_range w name →
  update_memcache e ("ctr_val:" +:+ name) delta w = (Ok (PyInt v), w1) →
  0 <= v < memcache.UINT64.
Proof.
  intros Hrange. unfold update_memcache, on_cache, memcache.incr, memcache.decr.
  pose proof (Hrange) as Hr. unfold slot_in_range in Hr.
  case_decide; destruct (update_rpc e);
    destruct (cache w !! ("ctr_val:" +:+ name)) as [[|n]|] eqn:Hslot;
    intros Hupd; simplify_eq;
    try (apply Z.mod_pos_bound; by rewrite UINT64_eq);
    try (specialize (Hr n eq_refl));
    rewrite ?BASE_VALUE_eq, UINT64_eq in *; lia.
Qed.

(** X7: whatever memcache and the task queue answer and however it ends,
    one call of [incr] never writes the datastore and submits at most one
    job; a job it submits is for its own name and carries a non-zero
    delta; and it logs at most one warning, for that name and delta, and
    only after it has submitted the job. *)
Theorem incr_effects (e : env) (name : string) (delta ui : Z) (w : world) :
  store (run (incr e name delta ui) w) = store w
  ∧ ((queue (run (incr e name delta ui) w) = queue w
      ∧ log (run (incr e name delta ui) w) = log w)
     ∨ ∃ D, D ≠ 0
            ∧ queue (run (incr e name delta ui) w)
              = queue w ++ [persist_task e name D]
            ∧ (log (run (incr e name delta ui) w) = log w
               ∨ log (run (incr e name delta ui) w) = log w ++ [(name, D)])).
Proof.
  unfold run. rewrite incr_eq. cbv zeta.
  destruct (update_memcache e _ delta w) as [r w1] eqn:Hupd.
  destruct (update_memcache_inv _ _ _ _ _ _ Hupd) as (v & -> & ->).
  destruct (memcache.add _ _ _ _ _) as [[|] mc2];
    cbn [snd store queue log set_cache]; [|by auto].
  destruct v as [|n]; cbn [snd store queue log set_cache]; [by auto|].
  case_decide as HD; cbn [snd store queue log set_cache]; [by auto|].
  destruct (enqueue_ok e); cbn [snd store queue log set_cache]; [|by auto].
  destruct (if decide (n - BASE_VALUE > 0) then _ else _) as [r mc4].
  cbn [snd store queue log]. split; [done|]. right.
  exists (n - BASE_VALUE). split; [done|]. split; [done|].
  destruct (bool_decide (r = PyNone)); auto.
Qed.

(** X8: a job that [incr] submits is well formed: it posts to the persist
    handler, on one of the five PersistCounter queues, for the name of
    the call, and, the slot having held an unsigned 64-bit value, its
    delta is non-zero and fits a signed 64-bit integer. *)
Theorem incr_job_well_formed (e : env) (name : string) (delta ui : Z)
    (w : world) (t : task) :
  slot_in_range w name →
  queue (run (incr e name delta ui) w) = queue w ++ [t] →
  url t = "/task/counter_persist_incr"
  ∧ queue_name t ∈ persist_queues
  ∧ param_name t = name
  ∧ param_delta t ≠ 0
  ∧ - 2 ^ 63 <= param_delta t < 2 ^ 63.
Proof.
  intros Hrange. unfold run. rewrite incr_eq. cbv zeta.
  destruct (update_memcache e _ delta w) as [r w1] eqn:Hupd.
  destruct (update_memcache_inv _ _ _ _ _ _ Hupd) as (v & -> & Hw1).
  assert (∀ q : list task, q = q ++ [t] → False) as Hgrow.
  { intros q Hq. apply (f_equal length) in Hq.
    rewrite length_app in Hq. cbn [length] in Hq. lia. }
  assert (queue w1 = queue w) as Hq1 by (by rewrite Hw1).
  destruct (memcache.add _ _ _ _ _) as [[|] mc2];
    cbn [snd queue set_cache]; rewrite ?Hq1;
    [|intros Hq; by apply Hgrow in Hq].
  destruct v as [|n]; cbn [snd queue set_cache]; rewrite ?Hq1;
    [intros Hq; by apply Hgrow in Hq|].
  case_decide as HD; cbn [snd queue set_cache]; rewrite ?Hq1;
    [intros Hq; by apply Hgrow in Hq|].
  destruct (enqueue_ok e); cbn [snd queue set_cache]; rewrite ?Hq1;
    [|intros Hq; by apply Hgrow in Hq].
  destruct (if decide (n - BASE_VALUE > 0) then _ else _) as [r mc4].
  cbn [snd queue]. rewrite ?Hq1. intros Hq.
  apply app_inv_head in Hq. injection Hq as <-.
  pose proof (update_memcache_range _ _ _ _ _ _ Hrange Hupd) as Hn.
  rewrite UINT64_eq in Hn.
  unfold persist_task. cbn [url queue_name param_name param_delta].
  repeat split; try done; try (rewrite BASE_VALUE_eq; lia).
  pose proof (randint_bounds (random e) 0 4) as Hqn.
  assert (randint (random e) 0 4 = 0 ∨ randint (random e) 0 4 = 1
          ∨ randint (random e) 0 4 = 2 ∨ randint (random e) 0 4 = 3
          ∨ randint (random e) 0 4 = 4) as Hcases by lia.
  unfold persist_queues.
  destruct Hcases as [->|[->|[->|[->| ->]]]];
    repeat first [apply list_elem_of_here | apply list_elem_of_further].
Qed.

Lemma incr_job_well_formed_witness :
  queue_name (persist_task (calm 7) "x" 5) ∈ persist_queues
  ∧ param_delta (persist_task (calm 7) "x" 5) ≠ 0.
Proof.
  destruct (incr_job_well_formed (calm 7) "x" 0 10 pending_world
              (persist_task (calm 7) "x" 5))
    as (_ & Hq & _ & Hd & _).
  - intros n Hn. vm_compute in Hn. injection Hn as <-. vm_compute.
    split; [discriminate | reflexivity].
  - vm_compute. reflexivity.
  - split; assumption.
Defined.

(** ** The throttle *)

(** A memcache call changes the key it is given and no other. *)
Lemma memcache_add_frame (ok : bool) (key k : string) (v : pyval) (time : Z)
    (mc : gmap string pyval) :
  k ≠ key → (memcache.add ok key v time mc).2 !! k = mc !! k.
Proof.
  intros Hk. unfold memcache.add. destruct ok; [|done].
  destruct (mc !! key); [done|]. by apply lookup_insert_ne.
Qed.

Lemma memcache_incr_frame (ok : bool) (key k : string) (delta : Z)
    (initial_value : option Z) (mc : gmap string pyval) :
  k ≠ key → (memcache.incr ok key delta initial_value mc).2 !! k = mc !! k.
Proof.
  intros Hk. unfold memcache.incr. destruct ok; [|done].
  destruct (mc !! key) as [[|n]|], initial_value; try done;
    by apply lookup_insert_ne.
Qed.

Lemma memcache_decr_frame (ok : bool) (key k : string) (delta : Z)
    (initial_value : option Z) (mc : gmap string pyval) :
  k ≠ key → (memcache.decr ok key delta initial_value mc).2 !! k = mc !! k.
Proof.
  intros Hk. unfold memcache.decr. destruct ok; [|done].
  destruct (mc !! key) as [[|n]|], initial_value; try done;
    by apply lookup_insert_ne.
Qed.

Lemma update_memcache_frame (e : env) (key k : string) (delta : Z)
    (w : world) :
  k ≠ key → cache (update_memcache e key delta w).2 !! k = cache w !! k.
Proof.
  intros Hk.
  destruct (update_memcache e key delta w) as [r w1] eqn:Hupd.
  destruct (update_memcache_inv _ _ _ _ _ _ Hupd) as (v & -> & ->).
  cbn [snd cache set_cache]. destruct v; [done|]. by apply lookup_insert_ne.
Qed.

(** While the throttle flag is there, [incr] is its first memcache call
    and nothing more. *)
Lemma incr_flag_held_eq (e : env) (name : string) (delta ui : Z) (x : pyval)
    (w : world) :
  cache w !! ("ctr_lck:" +:+ name) = Some x →
  incr e name delta ui w
  = (Ok (), (update_memcache e ("ctr_val:" +:+ name) delta w).2).
Proof.
  intros Hlock. rewrite incr_eq. cbv zeta.
  destruct (update_memcache e _ delta w) as [r w1] eqn:Hupd.
  destruct (update_memcache_inv _ _ _ _ _ _ Hupd) as (v & -> & Hw1).
  pose proof (update_memcache_lock _ _ _ _ _ _ Hupd) as Hlock1.
  rewrite Hlock in Hlock1.
  unfold memcache.add. rewrite Hlock1. cbn [snd].
  destruct w1. by destruct (add_rpc e).
Qed.

(** After an [incr] whose [memcache.add] got through, the flag is there,
    unless somebody else removed it meanwhile. *)
Lemma incr_sets_flag (e : env) (name : string) (delta ui : Z) (w : world) :
  add_rpc e = true →
  (∀ mc, is_Some (mc !! ("ctr_lck:" +:+ name)) →
         is_Some (others e mc !! ("ctr_lck:" +:+ name))) →
  is_Some (cache (run (incr e name delta ui) w) !! ("ctr_lck:" +:+ name)).
Proof.
  intros Hadd Hkeep. unfold run. rewrite incr_eq. cbv zeta.
  destruct (update_memcache e _ delta w) as [r w1] eqn:Hupd.
  destruct (update_memcache_inv _ _ _ _ _ _ Hupd) as (v & -> & _).
  assert (is_Some ((memcache.add (add_rpc e) ("ctr_lck:" +:+ name) PyNone ui
                      (cache w1)).2 !! ("ctr_lck:" +:+ name))) as Hflag.
  { unfold memcache.add. rewrite Hadd.
    destruct (cache w1 !! ("ctr_lck:" +:+ name)) eqn:E; cbn [snd].
    - rewrite E. eauto.
    - rewrite lookup_insert_eq. eauto. }
  destruct (memcache.add _ _ _ _ _) as [[|] mc2];
    cbn [snd cache set_cache] in *; [|done].
  destruct v as [|n]; cbn [snd cache set_cache]; [done|].
  case_decide; cbn [snd cache set_cache]; [done|].
  destruct (enqueue_ok e); cbn [snd cache set_cache]; [|done].
  apply Hkeep in Hflag.
  pose proof (memcache_decr_frame (reset_rpc e) ("ctr_val:" +:+ name)
                ("ctr_lck:" +:+ name) (n - BASE_VALUE) None (others e mc2)
                (not_eq_sym (val_key_not_lock_key _ _))) as Hd.
  pose proof (memcache_incr_frame (reset_rpc e) ("ctr_val:" +:+ name)
                ("ctr_lck:" +:+ name) (- (n - BASE_VALUE)) None (others e mc2)
                (not_eq_sym (val_key_not_lock_key _ _))) as Hi.
  case_decide.
  - destruct (memcache.decr _ _ _ _ _) as [r mc4]. cbn [snd cache] in *.
    by rewrite Hd.
  - destruct (memcache.incr _ _ _ _ _) as [r mc4]. cbn [snd cache] in *.
    by rewrite Hi.
Qed.

(** X9: while the throttle flag of the name is there, [incr], called
    with arguments the memcache client accepts, only moves the slot:
    whatever memcache answers it returns normally, submits no job, logs
    nothing, leaves the datastore alone and changes no other memcache
    key than the slot of the name. *)
Theorem incr_while_flag_held (e : env) (name : string) (delta ui : Z)
    (x : pyval) (w : world) :
  accepted_args delta ui →
  cache w !! ("ctr_lck:" +:+ name) = Some x →
  outcome (incr e name delta ui) w = Ok ()
  ∧ store (run (incr e name delta ui) w) = store w
  ∧ queue (run (incr e name delta ui) w) = queue w
  ∧ log (run (incr e name delta ui) w) = log w
  ∧ ∀ k, k ≠ "ctr_val:" +:+ name →
         cache (run (incr e name delta ui) w) !! k = cache w !! k.
Proof.
  intros _ Hlock. unfold run, outcome.
  rewrite (incr_flag_held_eq _ _ _ _ _ _ Hlock). cbn [fst snd].
  split; [done|].
  destruct (update_memcache e _ delta w) as [r w1] eqn:Hupd.
  destruct (update_memcache_inv _ _ _ _ _ _ Hupd) as (v & -> & ->).
  cbn [snd store queue log set_cache]. repeat split.
  intros k Hk.
  pose proof (update_memcache_frame e _ k delta w Hk) as Hframe.
  by rewrite Hupd in Hframe.
Qed.

Lemma incr_while_flag_held_witness :
  outcome (incr flaky_update "x" (-3) 10) throttled_world = Ok ()
  ∧ queue (run (incr flaky_update "x" (-3) 10) throttled_world) = [].
Proof.
  destruct (incr_while_flag_held flaky_update "x" (-3) 10 PyNone
              throttled_world) as (Hout & _ & Hq & _).
  - repeat split; vm_compute; reflexivity.
  - reflexivity.
  - split; assumption.
Defined.

(** X10: one flush per window.  Both calls having arguments the
    memcache client accepts: right after an [incr] whose
    [memcache.add] reached memcache, and as long as the flag has not been
    removed in between, a second [incr] on the same name returns
    normally, submits no job, logs nothing and does not write the
    datastore, whatever the first call did and whatever the services
    answer the second. *)
Theorem second_incr_never_flushes (e1 e2 : env) (name : string)
    (d1 d2 ui1 ui2 : Z) (w : world) :
  accepted_args d1 ui1 →
  accepted_args d2 ui2 →
  add_rpc e1 = true →
  (∀ mc, is_Some (mc !! ("ctr_lck:" +:+ name)) →
         is_Some (others e1 mc !! ("ctr_lck:" +:+ name))) →
  let w1 := run (incr e1 name d1 ui1) w in
  outcome (incr e2 name d2 ui2) w1 = Ok ()
  ∧ queue (run (incr e2 name d2 ui2) w1) = queue w1
  ∧ log (run (incr e2 name d2 ui2) w1) = log w1
  ∧ store (run (incr e2 name d2 ui2) w1) = store w1.
Proof.
  intros _ _ Hadd Hkeep w1.
  destruct (incr_sets_flag e1 name d1 ui1 w Hadd Hkeep) as [x Hx].
  fold w1 in Hx. unfold run, outcome.
  rewrite (incr_flag_held_eq _ _ _ _ _ _ Hx). cbn [fst snd].
  destruct (update_memcache e2 _ d2 w1) as [r w2] eqn:Hupd.
  destruct (update_memcache_inv _ _ _ _ _ _ Hupd) as (v & -> & ->).
  by cbn [snd store queue log set_cache].
Qed.

Lemma second_incr_never_flushes_witness :
  queue (run (incr (calm 1) "x" 3 10)
           (run (incr (calm 0) "x" 5 10) empty_world))
  = queue (run (incr (calm 0) "x" 5 10) empty_world).
Proof.
  destruct (second_incr_never_flushes (calm 0) (calm 1) "x" 5 3 10 10
              empty_world) as (_ & Hq & _).
  - repeat split; vm_compute; reflexivity.
  - repeat split; vm_compute; reflexivity.
  - reflexivity.
  - intros mc Hmc. exact Hmc.
  - exact Hq.
Defined.

(** ** Counters do not interfere *)

(** Outside the slot and the flag of its name, one call of [incr] leaves
    memcache to the others. *)
Lemma incr_frame (e : env) (name k : string) (delta ui : Z) (w : world) :
  k ≠ "ctr_val:" +:+ name →
  k ≠ "ctr_lck:" +:+ name →
  (∀ mc, others e mc !! k = mc !! k) →
  cache (run (incr e name delta ui) w) !! k = cache w !! k.
Proof.
  intros Hval Hlck Hothers. unfold run. rewrite incr_eq. cbv zeta.
  pose proof (update_memcache_frame e _ k delta w Hval) as Hupdk.
  destruct (update_memcache e _ delta w) as [r w1] eqn:Hupd.
  destruct (update_memcache_inv _ _ _ _ _ _ Hupd) as (v & -> & _).
  cbn [snd] in Hupdk.
  pose proof (memcache_add_frame (add_rpc e) _ k PyNone ui (cache w1) Hlck)
    as Haddk.
  destruct (memcache.add _ _ _ _ _) as [[|] mc2];
    cbn [snd cache set_cache] in *; [|congruence].
  destruct v as [|n]; cbn [snd cache set_cache]; [congruence|].
  case_decide; cbn [snd cache set_cache]; [congruence|].
  destruct (enqueue_ok e); cbn [snd cache set_cache]; [|congruence].
  pose proof (memcache_decr_frame (reset_rpc e) _ k (n - BASE_VALUE) None
                (others e mc2) Hval) as Hd.
  pose proof (memcache_incr_frame (reset_rpc e) _ k (- (n - BASE_VALUE)) None
                (others e mc2) Hval) as Hi.
  case_decide.
  - destruct (memcache.decr _ _ _ _ _) as [r mc4]. cbn [snd cache] in *.
    rewrite Hd, Hothers. congruence.
  - destruct (memcache.incr _ _ _ _ _) as [r mc4]. cbn [snd cache] in *.
    rewrite Hi, Hothers. congruence.
Qed.

Lemma incr_store (e : env) (name : string) (delta ui : Z) (w : world) :
  store (run (incr e name delta ui) w) = store w.
Proof.
  unfold run. rewrite incr_eq. cbv zeta.
  destruct (update_memcache e _ delta w) as [r w1] eqn:Hupd.
  destruct (update_memcache_inv _ _ _ _ _ _ Hupd) as (v & -> & ->).
  destruct (memcache.add _ _ _ _ _) as [[|] mc2]; [|done].
  destruct v as [|n]; [done|]. case_decide; [done|].
  destruct (enqueue_ok e); [|done].
  by destruct (if decide (n - BASE_VALUE > 0) then _ else _).
Qed.

(** X11: an [incr] on one name changes nothing that the read path sees
    of another name: [get_count] of the other name is what it was, as
    long as nobody else touched that name's slot meanwhile. *)
Theorem incr_leaves_other_counts (e : env) (name other : string)
    (delta ui : Z) (w : world) :
  other ≠ name →
  (∀ mc, others e mc !! ("ctr_val:" +:+ other)
         = mc !! ("ctr_val:" +:+ other)) →
  get_count (run (incr e name delta ui) w) other = get_count w other.
Proof.
  intros Hne Hothers. apply get_count_same_slot.
  - by rewrite incr_store.
  - unfold memcache.get. rewrite incr_frame; [done| |by apply val_key_not_lock_key|done].
    intros Heq. by apply val_key_inj in Heq.
Qed.

Lemma incr_leaves_other_counts_witness :
  get_count (run (incr (calm 0) "x" 9 10) mixed_world) "y" = 7.
Proof.
  rewrite (incr_leaves_other_counts (calm 0) "x" "y" 9 10 mixed_world).
  - reflexivity.
  - discriminate.
  - intros mc. reflexivity.
Defined.

(** ** Accounting across memcache, queue and datastore *)

Lemma get_count_int (w : world) (name : string) (n : Z) :
  cache w !! ("ctr_val:" +:+ name) = Some (PyInt n) → n ≠ 0 →
  get_count w name = durable w name + n - BASE_VALUE.
Proof.
  intros Hslot Hn. rewrite get_count_merge. unfold memcache.get.
  rewrite Hslot. unfold default, py_or. simpl.
  by rewrite decide_False.
Qed.

Lemma get_count_absent (w : world) (name : string) :
  cache w !! ("ctr_val:" +:+ name) = None →
  get_count w name = durable w name.
Proof.
  intros Hslot. rewrite get_count_merge. unfold memcache.get.
  rewrite Hslot. unfold default, py_or. simpl. lia.
Qed.

(** The first memcache call when memcache answers and neither wrap-around
    nor the floor at zero is met: the slot, read as [n0] ([BASE_VALUE]
    when absent), becomes [n0 + delta]. *)
Lemma update_memcache_exact (e : env) (name : string) (delta n0 : Z)
    (w : world) :
  update_rpc e = true →
  (cache w !! ("ctr_val:" +:+ name) = Some (PyInt n0)
   ∨ (cache w !! ("ctr_val:" +:+ name) = None ∧ n0 = BASE_VALUE)) →
  0 <= n0 + delta < memcache.UINT64 →
  update_memcache e ("ctr_val:" +:+ name) delta w
  = (Ok (PyInt (n0 + delta)),
     set_cache (<["ctr_val:" +:+ name := PyInt (n0 + delta)]> (cache w)) w).
Proof.
  intros Hrpc Hslot Hnew.
  unfold update_memcache, on_cache, memcache.incr, memcache.decr.
  rewrite Hrpc.
  case_decide; destruct Hslot as [->|[-> ->]];
    rewrite ?Z.mod_small by done;
    rewrite ?Z.max_r by lia; rewrite ?Z.sub_opp_r; reflexivity.
Qed.

(** X12: no increment is lost and none is counted twice when the
    services answer.  With memcache answering the update and the
    correction, nobody else touching the name in between, and the slot
    staying strictly between 0 and 2^64, one call [incr(name, delta)]
    returns normally and raises by exactly [delta] the sum of what
    [get_count] reads and what the queued jobs carry for the name,
    whether or not the call flushes and whether or not the task queue
    accepts the job. *)
Theorem incr_conserves_total (e : env) (name : string) (delta ui n0 : Z)
    (w : world) :
  update_rpc e = true →
  reset_rpc e = true →
  undisturbed e name →
  (cache w !! ("ctr_val:" +:+ name) = Some (PyInt n0)
   ∨ (cache w !! ("ctr_val:" +:+ name) = None ∧ n0 = BASE_VALUE)) →
  0 < n0 →
  0 < n0 + delta < memcache.UINT64 →
  outcome (incr e name delta ui) w = Ok ()
  ∧ total (run (incr e name delta ui) w) name = total w name + delta.
Proof.
  intros Hupd Hreset Hund Hslot Hn0 Hnew.
  assert (get_count w name = durable w name + n0 - BASE_VALUE) as Hold.
  { destruct Hslot as [Hs|[Hs ->]].
    - apply get_count_int; [done | lia].
    - rewrite get_count_absent by done. lia. }
  assert (∀ w', cache w' !! ("ctr_val:" +:+ name) = Some (PyInt (n0 + delta)) →
                store w' = store w → queue w' = queue w →
                total w' name = total w name + delta) as Hkeep.
  { intros w' Hc Hs Hq. unfold total.
    rewrite (get_count_int _ _ (n0 + delta)), Hold, Hq by (done || lia).
    unfold durable. rewrite Hs. lia. }
  assert (∀ w', cache w' !! ("ctr_val:" +:+ name) = Some (PyInt BASE_VALUE) →
                store w' = store w →
                queue w'
                = queue w ++ [persist_task e name (n0 + delta - BASE_VALUE)] →
                total w' name = total w name + delta) as Hflushed.
  { intros w' Hc Hs Hq. unfold total.
    rewrite (get_count_int _ _ BASE_VALUE), Hold, Hq
      by (done || by rewrite BASE_VALUE_eq).
    rewrite pending_app. unfold persist_task. cbn [param_name param_delta].
    rewrite decide_True by done. unfold durable. rewrite Hs. lia. }
  unfold run, outcome. rewrite incr_eq. cbv zeta.
  rewrite (update_memcache_exact e name delta n0 w) by (done || lia).
  set (v := n0 + delta) in *.
  set (mc1 := <["ctr_val:" +:+ name := PyInt v]> (cache w)).
  pose proof (add_keeps_slot (add_rpc e) name PyNone ui mc1) as Hslot2.
  unfold mc1 in Hslot2 at 2. rewrite lookup_insert_eq in Hslot2.
  change (cache (set_cache mc1 w)) with mc1.
  destruct (memcache.add _ _ _ _ mc1) as [[|] mc2]; cbn [snd] in Hslot2;
    [|split; [done | by apply Hkeep]].
  case_decide as HD; [split; [done | by apply Hkeep]|].
  destruct (enqueue_ok e); [|split; [done | by apply Hkeep]].
  assert (others e mc2 !! ("ctr_val:" +:+ name) = Some (PyInt v)) as Hslot3.
  { destruct (Hund mc2) as [-> _]. exact Hslot2. }
  unfold memcache.decr, memcache.incr. rewrite Hreset, Hslot3.
  case_decide as Hpos; cbn [fst snd]; (split; [done|]);
    apply Hflushed; try done; cbn [cache].
  - replace (Z.max 0 (v - (v - BASE_VALUE))) with BASE_VALUE
      by (rewrite BASE_VALUE_eq; lia).
    apply lookup_insert_eq.
  - replace ((v + - (v - BASE_VALUE)) `mod` memcache.UINT64) with BASE_VALUE.
    + apply lookup_insert_eq.
    + replace (v + - (v - BASE_VALUE)) with BASE_VALUE by lia.
      symmetry. apply Z.mod_small. rewrite BASE_VALUE_eq, UINT64_eq. lia.
Qed.

Lemma incr_conserves_total_witness :
  total (run (incr (calm 0) "x" 2 10) pending_world) "x"
  = total pending_world "x" + 2.
Proof.
  apply (incr_conserves_total (calm 0) "x" 2 10 (BASE_VALUE + 5)
           pending_world).
  - reflexivity.
  - reflexivity.
  - intros mc. split; reflexivity.
  - left. reflexivity.
  - vm_compute. reflexivity.
  - split; vm_compute; reflexivity.
Defined.



(** ** Memcache stays within its range *)

Lemma cache_in_range_insert (mc : gmap string pyval) (k : string) (v : pyval) :
  cache_in_range mc →
  (∀ n, v = PyInt n → 0 <= n < memcache.UINT64) →
  cache_in_range (<[k := v]> mc).
Proof.
  intros Hmc Hv k' n Hk'.
  destruct (decide (k = k')) as [->|Hne].
  - rewrite lookup_insert_eq in Hk'. simplify_eq. by apply Hv.
  - rewrite lookup_insert_ne in Hk' by done. by apply (Hmc k').
Qed.

Lemma memcache_incr_in_range (ok : bool) (key : string) (delta : Z)
    (initial_value : option Z) (mc : gmap string pyval) :
  cache_in_range mc →
  cache_in_range (memcache.incr ok key delta initial_value mc).2.
Proof.
  intros Hmc. unfold memcache.incr. destruct ok; [|done].
  destruct (mc !! key) as [[|n]|], initial_value; try done; cbn [snd];
    (apply cache_in_range_insert; [done|]); intros ? [= <-];
    apply Z.mod_pos_bound; by rewrite UINT64_eq.
Qed.

Lemma memcache_decr_in_range (ok : bool) (key : string) (delta : Z)
    (initial_value : option Z) (mc : gmap string pyval) :
  cache_in_range mc →
  0 <= delta →
  (∀ i, initial_value = Some i → 0 <= i < memcache.UINT64) →
  cache_in_range (memcache.decr ok key delta initial_value mc).2.
Proof.
  intros Hmc Hdelta Hinit. unfold memcache.decr. destruct ok; [|done].
  destruct (mc !! key) as [[|n]|] eqn:Hslot, initial_value as [i|];
    try done; cbn [snd];
    (apply cache_in_range_insert; [done|]); intros ? [= <-].
  - specialize (Hmc key n Hslot). lia.
  - specialize (Hmc key n Hslot). lia.
  - specialize (Hinit i eq_refl). lia.
Qed.

(** X14: [incr] keeps memcache within its range: if every integer of
    memcache is an unsigned 64-bit value before the call, and the other
    users of memcache keep it so, then every integer of memcache is an
    unsigned 64-bit value after the call, for any arguments the memcache
    client accepts and whatever the services answer: an increment past
    2^64 - 1 wraps around and a decrement past 0 stops there. *)
Theorem incr_keeps_cache_in_range (e : env) (name : string) (delta ui : Z)
    (w : world) :
  accepted_args delta ui →
  cache_in_range (cache w) →
  (∀ mc, cache_in_range mc → cache_in_range (others e mc)) →
  cache_in_range (cache (run (incr e name delta ui) w)).
Proof.
  intros _ Hw Hothers. unfold run. rewrite incr_eq. cbv zeta.
  assert (cache_in_range
            (cache (update_memcache e ("ctr_val:" +:+ name) delta w).2))
    as Hw1.
  { unfold update_memcache, on_cache. case_decide.
    - pose proof (memcache_incr_in_range (update_rpc e) ("ctr_val:" +:+ name)
                    delta (Some BASE_VALUE) (cache w) Hw) as H1.
      by destruct (memcache.incr _ _ _ _ _).
    - pose proof (memcache_decr_in_range (update_rpc e) ("ctr_val:" +:+ name)
                    (- delta) (Some BASE_VALUE) (cache w) Hw) as H1.
      destruct (memcache.decr _ _ _ _ _). apply H1; [lia|].
      intros i [= <-]. by rewrite BASE_VALUE_eq, UINT64_eq. }
  destruct (update_memcache e _ delta w) as [r w1] eqn:Hupd.
  destruct (update_memcache_inv _ _ _ _ _ _ Hupd) as (v & -> & _).
  cbn [snd] in Hw1.
  assert (cache_in_range
            (memcache.add (add_rpc e) ("ctr_lck:" +:+ name) PyNone ui
               (cache w1)).2) as Hw2.
  { unfold memcache.add. destruct (add_rpc e); [|done].
    destruct (cache w1 !! _); [done|]. cbn [snd].
    by apply cache_in_range_insert. }
  destruct (memcache.add _ _ _ _ _) as [[|] mc2];
    cbn [snd cache set_cache] in *; [|done].
  destruct v as [|n]; cbn [snd cache set_cache]; [done|].
  case_decide; cbn [snd cache set_cache]; [done|].
  destruct (enqueue_ok e); cbn [snd cache set_cache]; [|done].
  apply Hothers in Hw2.
  case_decide as Hpos.
  - pose proof (memcache_decr_in_range (reset_rpc e) ("ctr_val:" +:+ name)
                  (n - BASE_VALUE) None (others e mc2) Hw2) as H4.
    destruct (memcache.decr _ _ _ _ _). apply H4; [lia | done].
  - pose proof (memcache_incr_in_range (reset_rpc e) ("ctr_val:" +:+ name)
                  (- (n - BASE_VALUE)) None (others e mc2) Hw2) as H4.
    by destruct (memcache.incr _ _ _ _ _).
Qed.

Lemma incr_keeps_cache_in_range_witness :
  cache_in_range
    (cache (run (incr (calm 0) "x" (- (2 ^ 63 + 10)) 10) throttled_world))
  ∧ cache (run (incr (calm 0) "x" (- (2 ^ 63 + 10)) 10) throttled_world)
      !! "ctr_val:x" = Some (PyInt 0).
Proof.
  split; [|reflexivity].
  apply (incr_keeps_cache_in_range (calm 0) "x" (- (2 ^ 63 + 10)) 10
           throttled_world).
  - repeat split; vm_compute; reflexivity.
  - intros k n Hk. unfold throttled_world in Hk. cbn [cache] in Hk.
    apply lookup_insert_Some in Hk as [[_ Hk]|[_ Hk]]; [discriminate|].
    apply lookup_singleton_Some in Hk as [_ Hk]. injection Hk as <-.
    vm_compute. split; [discriminate | reflexivity].
  - intros mc Hmc. exact Hmc.
Defined.

(** ** The first increment of a counter *)



(** ** Lost and accumulated increments *)

(** X16: an increment can be dropped without a trace.  When [incr] is
    called with arguments the memcache client accepts, the first
    memcache call gets no answer and the throttle flag is not won
    (memcache does not answer the [add] either, or the flag is there),
    [incr] returns normally and nothing at all has changed: the delta is
    in no slot, no job and no log. *)
Theorem incr_dropped_silently (e : env) (name : string) (delta ui : Z)
    (w : world) :
  accepted_args delta ui →
  update_rpc e = false →
  add_rpc e = false ∨ is_Some (cache w !! ("ctr_lck:" +:+ name)) →
  incr e name delta ui w = (Ok (), w).
Proof.
  intros _ Hupd Hflag. rewrite incr_eq. cbv zeta.
  assert (update_memcache e ("ctr_val:" +:+ name) delta w = (Ok PyNone, w))
    as ->.
  { unfold update_memcache, on_cache, memcache.incr, memcache.decr.
    rewrite Hupd. destruct w. by case_decide. }
  unfold memcache.add.
  destruct Hflag as [->|[x ->]]; [|destruct (add_rpc e)]; by destruct w.
Qed.

Lemma incr_dropped_silently_witness :
  incr memcache_down "x" 5 10 pending_world = (Ok (), pending_world).
Proof.
  apply (incr_dropped_silently memcache_down "x" 5 10 pending_world).
  - repeat split; vm_compute; reflexivity.
  - reflexivity.
  - left. reflexivity.
Defined.

(** X17: increments add up while the throttle flag is there.  With the
    flag present, memcache answering and the slot far enough from 0 and
    from 2^64 for the magnitudes of the deltas, a sequence of [incr]
    calls, of either sign, leaves the slot moved by the sum of the
    deltas and [get_count] higher by that sum; no job is queued, nothing
    is logged and the datastore is not written. *)
Theorem throttled_incrs_add_up (e : env) (name : string) (ui : Z)
    (deltas : list Z) (x : pyval) (n0 : Z) (w : world) :
  update_rpc e = true →
  cache w !! ("ctr_lck:" +:+ name) = Some x →
  cache w !! ("ctr_val:" +:+ name) = Some (PyInt n0) →
  sum_magnitudes deltas < n0 →
  n0 + sum_magnitudes deltas < memcache.UINT64 →
  cache (incr_each e name ui deltas w) !! ("ctr_val:" +:+ name)
  = Some (PyInt (n0 + sum_deltas deltas))
  ∧ get_count (incr_each e name ui deltas w) name
    = get_count w name + sum_deltas deltas
  ∧ queue (incr_each e name ui deltas w) = queue w
  ∧ log (incr_each e name ui deltas w) = log w
  ∧ store (incr_each e name ui deltas w) = store w.
Proof.
  intros Hupd. revert n0 w.
  induction deltas as [|d deltas IH]; intros n0 w Hlock Hslot Hlo Hhi.
  - cbn [incr_each foldl sum_deltas foldr]. rewrite Z.add_0_r.
    repeat split; [done | lia].
  - cbn [sum_magnitudes foldr] in Hlo, Hhi.
    fold (sum_magnitudes deltas) in Hlo, Hhi.
    assert (0 <= sum_magnitudes deltas) as Hnonneg.
    { clear. induction deltas as [|d' ds IHd]; cbn [sum_magnitudes foldr];
        [lia|]. fold (sum_magnitudes ds). lia. }
    assert (run (incr e name d ui) w
            = set_cache (<["ctr_val:" +:+ name := PyInt (n0 + d)]> (cache w)) w)
      as Hstep.
    { unfold run. rewrite (incr_flag_held_eq _ _ _ _ _ _ Hlock).
      rewrite (update_memcache_exact e name d n0 w) by (auto || lia). done. }
    cbn [incr_each foldl]. rewrite Hstep.
    set (w1 := set_cache _ w).
    fold (incr_each e name ui deltas w1).
    destruct (IH (n0 + d) w1) as (Hc & Hg & Hq & Hl & Hs).
    + subst w1. cbn [cache set_cache].
      by rewrite lookup_insert_ne by apply val_key_not_lock_key.
    + subst w1. cbn [cache set_cache]. apply lookup_insert_eq.
    + lia.
    + lia.
    + cbn [sum_deltas foldr]. fold (sum_deltas deltas).
      rewrite Hc, Hg, Hq, Hl, Hs.
      rewrite (get_count_int w1 name (n0 + d)), (get_count_int w name n0);
        [| done | lia | subst w1; cbn [cache set_cache];
                        apply lookup_insert_eq | lia].
      repeat split; try (f_equal; f_equal; lia).
      unfold durable. subst w1. cbn [store set_cache]. lia.
Qed.

Lemma throttled_incrs_add_up_witness :
  get_count (incr_each (calm 0) "x" 10 [3; -10; 4] throttled_world) "x"
  = get_count throttled_world "x" + sum_deltas [3; -10; 4]
  ∧ queue (incr_each (calm 0) "x" 10 [3; -10; 4] throttled_world) = [].
Proof.
  destruct (throttled_incrs_add_up (calm 0) "x" 10 [3; -10; 4] PyNone
              (BASE_VALUE + 5) throttled_world) as (_ & Hg & Hq & _).
  - reflexivity.
  - reflexivity.
  - reflexivity.
  - vm_compute. reflexivity.
  - vm_compute. reflexivity.
  - split; [exact Hg | exact Hq].
Defined.
